(** * dns-checker-cli: resolver and formatter

    A shallow embedding of [src/dns.ts], [src/formatter.ts] and
    [src/types.ts], with the properties of the resolution pipeline and of the
    two renderers proved over it.

    Conventions of the embedding:
    - a TypeScript [string] is a [string] of bytes (the UTF-8 encoding of the
      text), a DNS [number] (priority, port, serial, ...) is an integer [Z];
    - an optional property ([error?: string], [issue?: string]) is an
      [option]: [None] is the absent property;
    - [node:dns/promises] is the platform resolver: a record of nine methods
      over an abstract world state, each either resolving with an answer of
      its shape or rejecting with an error object;
    - an [async] function is a computation in a small state-and-rejection
      monad that also logs the platform calls it issues. *)

From Stdlib Require Import ZArith String Ascii Sorted.
From stdpp Require Import base list strings pretty.

Local Open Scope Z_scope.
Local Open Scope string_scope.
Local Open Scope list_scope.

(** ** types.ts *)

Inductive RecordType := A | AAAA | CNAME | MX | NS | TXT | SOA | CAA | SRV.

Definition RECORD_TYPES : list RecordType :=
  [A; AAAA; CNAME; MX; NS; TXT; SOA; CAA; SRV].

#[global] Instance RecordType_eq_dec : EqDecision RecordType.
Proof. solve_decision. Defined.

#[global] Instance RecordType_inhabited : Inhabited RecordType := populate A.

(** The string each member of the union type is at run time. *)
Definition typeName (t : RecordType) : string :=
  match t with
  | A => "A" | AAAA => "AAAA" | CNAME => "CNAME" | MX => "MX" | NS => "NS"
  | TXT => "TXT" | SOA => "SOA" | CAA => "CAA" | SRV => "SRV"
  end.

Record DnsResult := mkDnsResult {
  type : RecordType;
  records : list string;
  error : option string
}.

(** ** JavaScript values and built-ins used by the sources *)

Module JS.

(** Truthiness of a string, and of an optional string property
    ([undefined] and the empty string are falsy). *)
Definition truthy (s : string) : bool := negb (String.eqb s "").

Definition truthyOpt (o : option string) : bool :=
  match o with
  | Some s => truthy s
  | None => false
  end.

(** [a || b] on an optional string with a string fallback. *)
Definition orElse (o : option string) (fallback : string) : string :=
  match o with
  | Some s => if truthy s then s else fallback
  | None => fallback
  end.

(** [a ?? b]: only the absent value falls through. *)
Definition nullish {X : Type} (o : option X) (fallback : X) : X :=
  match o with
  | Some x => x
  | None => fallback
  end.

(** Truthiness of a number. *)
Definition truthyNum (n : Z) : bool := negb (n =? 0)%Z.

(** Template-literal rendering of an integer number. *)
Definition numberToString (n : Z) : string := pretty n.

(** [Array.prototype.join]. *)
Definition join (sep : string) (parts : list string) : string :=
  String.concat sep parts.

(** [Array.prototype.sort] with a comparator: a stable sort (ECMAScript
    2019), here by insertion.  [cmp a b <= 0] keeps [a] before [b]. *)
Section Sort.
Context {X : Type} (cmp : X -> X -> Z).

Fixpoint insert (x : X) (l : list X) : list X :=
  match l with
  | [] => [x]
  | y :: l' => if (cmp x y <=? 0)%Z then x :: y :: l' else y :: insert x l'
  end.

Fixpoint sort (l : list X) : list X :=
  match l with
  | [] => []
  | x :: l' => insert x (sort l')
  end.
End Sort.

End JS.

(** ** node:dns/promises, the platform resolver *)

Record MxRecord := mkMx { priority : Z; exchange : string }.

Record SoaRecord := mkSoa {
  nsname : string; hostmaster : string;
  serial : Z; refresh : Z; retry : Z; expire : Z; minttl : Z
}.

Record CaaRecord := mkCaa {
  critical : Z;
  issue : option string;
  issuewild : option string;
  iodef : option string
}.

Record SrvRecord := mkSrv {
  srvPriority : Z; weight : Z; port : Z; name : string
}.

(** [NodeJS.ErrnoException], the type at which the [catch] clause reads the
    rejection of a platform call. *)
Record ErrnoException := mkErrno {
  code : option string;
  message : option string
}.

Inductive Outcome (T : Type) :=
| Resolves (answer : T)
| Rejects (err : ErrnoException).
Arguments Resolves {T} answer.
Arguments Rejects {T} err.

Record Resolver (W : Type) := mkResolver {
  resolve4 : string -> W -> Outcome (list string) * W;
  resolve6 : string -> W -> Outcome (list string) * W;
  resolveCname : string -> W -> Outcome (list string) * W;
  resolveMx : string -> W -> Outcome (list MxRecord) * W;
  resolveNs : string -> W -> Outcome (list string) * W;
  resolveTxt : string -> W -> Outcome (list (list string)) * W;
  resolveSoa : string -> W -> Outcome SoaRecord * W;
  resolveCaa : string -> W -> Outcome (list CaaRecord) * W;
  resolveSrv : string -> W -> Outcome (list SrvRecord) * W
}.
Arguments resolve4 {W} _ _ _.
Arguments resolve6 {W} _ _ _.
Arguments resolveCname {W} _ _ _.
Arguments resolveMx {W} _ _ _.
Arguments resolveNs {W} _ _ _.
Arguments resolveTxt {W} _ _ _.
Arguments resolveSoa {W} _ _ _.
Arguments resolveCaa {W} _ _ _.
Arguments resolveSrv {W} _ _ _.

Inductive Method :=
| Resolve4 | Resolve6 | ResolveCname | ResolveMx | ResolveNs
| ResolveTxt | ResolveSoa | ResolveCaa | ResolveSrv.

(** One platform call: the method and its argument. *)
Definition Call : Type := Method * string.

(** ** Promises *)

Inductive Settled (E X : Type) :=
| Fulfilled (value : X)
| Rejected (reason : E).
Arguments Fulfilled {E X} value.
Arguments Rejected {E X} reason.

(** What an asynchronous computation runs against: the state of the platform
    and the log of the calls issued so far. *)
Record Env (W : Type) := mkEnv { world : W; issued : list Call }.
Arguments mkEnv {W} world issued.
Arguments world {W} _.
Arguments issued {W} _.

(** An [async] computation, given with the settlement it will reach. *)
Definition Async (W E X : Type) : Type := Env W -> Settled E X * Env W.

Module Async.
Section Ops.
Context {W : Type}.

Definition ret {E X} (x : X) : Async W E X := fun env => (Fulfilled x, env).

Definition bind {E X Y} (m : Async W E X) (k : X -> Async W E Y)
  : Async W E Y :=
  fun env =>
    match m env with
    | (Fulfilled x, env') => k x env'
    | (Rejected e, env') => (Rejected e, env')
    end.

(** [try { body } catch (err) { handler }] *)
Definition tryCatch {E E' X} (body : Async W E X)
    (handler : E -> Async W E' X) : Async W E' X :=
  fun env =>
    match body env with
    | (Fulfilled x, env') => (Fulfilled x, env')
    | (Rejected e, env') => handler e env'
    end.

(** [await dns.method(domain)]: the call is logged, the platform moves
    on, and a rejection is thrown at the [await]. *)
Definition await {T} (m : Method)
    (method : string -> W -> Outcome T * W) (domain : string)
  : Async W ErrnoException T :=
  fun env =>
    let '(outcome, w') := method domain (world env) in
    let env' := mkEnv w' (issued env ++ [(m, domain)]) in
    match outcome with
    | Resolves answer => (Fulfilled answer, env')
    | Rejects err => (Rejected err, env')
    end.

(** [tasks.map(start)]: the tasks are started one after the other, each
    issuing its platform call before the next one starts. *)
Fixpoint startAll {E X} (tasks : list (Async W E X)) (env : Env W)
  : list (Settled E X) * Env W :=
  match tasks with
  | [] => ([], env)
  | task :: rest =>
      let '(p, env') := task env in
      let '(ps, env'') := startAll rest env' in
      (p :: ps, env'')
  end.
End Ops.
End Async.

#[global] Instance Async_ret {W E} : MRet (Async W E) := @Async.ret W E.
#[global] Instance Async_bind {W E} : MBind (Async W E) :=
  fun X Y k m => Async.bind m k.

(** [Promise.allSettled].  The promises settle in the order given by
    [schedule] (a list of positions); each settlement is stored in the slot
    of its own position, and the combined promise is fulfilled once every
    slot is filled.  [None]: some promise never settled. *)
Section AllSettled.
Context {E X : Type}.

Definition settleAt (promises : list (Settled E X))
    (slots : list (option (Settled E X))) (i : nat)
  : list (option (Settled E X)) :=
  match promises !! i with
  | Some p => <[i := Some p]> slots
  | None => slots
  end.

Definition allSettled (schedule : list nat) (promises : list (Settled E X))
  : option (list (Settled E X)) :=
  mapM id
    (foldl (settleAt promises) (replicate (length promises) None) schedule).
End AllSettled.

(** ** dns.ts *)

Definition renderMx (r : MxRecord) : string :=
  if (priority r =? 0)%Z && String.eqb (exchange r) "."
  then JS.numberToString (priority r)
       +:+ " . (null MX — domain does not accept mail)"
  else JS.numberToString (priority r) +:+ " " +:+ exchange r.

Definition renderSoa (record : SoaRecord) : list string :=
  [ "Primary NS: " +:+ nsname record;
    "Hostmaster: " +:+ hostmaster record;
    "Serial: " +:+ JS.numberToString (serial record);
    "Refresh: " +:+ JS.numberToString (refresh record) +:+ "s";
    "Retry: " +:+ JS.numberToString (retry record) +:+ "s";
    "Expire: " +:+ JS.numberToString (expire record) +:+ "s";
    "Min TTL: " +:+ JS.numberToString (minttl record) +:+ "s" ].

Definition renderCaa (r : CaaRecord) : string :=
  let flags := if JS.truthyNum (critical r) then "128" else "0" in
  let tag :=
    match issue r with
    | Some _ => "issue"
    | None =>
        match issuewild r with
        | Some _ => "issuewild"
        | None => "iodef"
        end
    end in
  let value :=
    JS.nullish (issue r)
      (JS.nullish (issuewild r) (JS.nullish (iodef r) "unknown")) in
  flags +:+ " " +:+ tag +:+ " " +:+ value.

Definition renderSrv (r : SrvRecord) : string :=
  JS.numberToString (srvPriority r) +:+ " " +:+ JS.numberToString (weight r)
  +:+ " " +:+ JS.numberToString (port r) +:+ " " +:+ name r.

Definition codeIs (e : ErrnoException) (c : string) : bool :=
  match code e with
  | Some c' => String.eqb c' c
  | None => false
  end.

Section Dns.
Context {W : Type} (dns : Resolver W).

(** The body of the [try] block: one platform call and the
    normalisation of its answer. *)
Definition queryType (domain : string) (type : RecordType)
  : Async W ErrnoException DnsResult :=
  match type with
  | A =>
      records ← Async.await Resolve4 (resolve4 dns) domain;
      mret (mkDnsResult type records None)
  | AAAA =>
      records ← Async.await Resolve6 (resolve6 dns) domain;
      mret (mkDnsResult type records None)
  | CNAME =>
      records ← Async.await ResolveCname (resolveCname dns) domain;
      mret (mkDnsResult type records None)
  | MX =>
      records ← Async.await ResolveMx (resolveMx dns) domain;
      mret
        (mkDnsResult type
           (map renderMx
              (JS.sort (fun a b => priority a - priority b) records))
           None)
  | NS =>
      records ← Async.await ResolveNs (resolveNs dns) domain;
      mret (mkDnsResult type records None)
  | TXT =>
      records ← Async.await ResolveTxt (resolveTxt dns) domain;
      mret (mkDnsResult type (map (fun r => JS.join "" r) records) None)
  | SOA =>
      record ← Async.await ResolveSoa (resolveSoa dns) domain;
      mret (mkDnsResult type (renderSoa record) None)
  | CAA =>
      records ← Async.await ResolveCaa (resolveCaa dns) domain;
      mret (mkDnsResult type (map renderCaa records) None)
  | SRV =>
      records ← Async.await ResolveSrv (resolveSrv dns) domain;
      mret (mkDnsResult type (map renderSrv records) None)
  end.

(** The [catch] clause. *)
Definition classifyError {E} (type : RecordType) (error : ErrnoException)
  : Async W E DnsResult :=
  if codeIs error "ENODATA" || codeIs error "ENOTFOUND"
  then mret (mkDnsResult type [] None)
  else
    mret
      (mkDnsResult type []
         (Some (JS.orElse (message error)
                  ("Failed to resolve " +:+ typeName type +:+ " records")))).

Definition resolveType (domain : string) (type : RecordType)
  : Async W (option ErrnoException) DnsResult :=
  Async.tryCatch (queryType domain type) (classifyError type).

(** The callback of [results.map] at the join.  The reason of a rejection
    is any value; [None] is a [null] or [undefined] reason. *)
Definition settledToResult (types : list RecordType) (index : nat)
    (result : Settled (option ErrnoException) DnsResult) : DnsResult :=
  match result with
  | Fulfilled value => value
  | Rejected reason =>
      mkDnsResult (types !!! index) []
        (Some (JS.nullish (reason ≫= message) "Unknown error"))
  end.

(** [resolveDns].  [schedule] is the order in which the per-type tasks
    complete.  The result is [None] while the join is pending. *)
Definition resolveDns (schedule : list nat) (domain : string)
    (types : list RecordType) (env : Env W)
  : option (Settled (option ErrnoException) (list DnsResult)) * Env W :=
  let '(promises, env') :=
    Async.startAll (map (fun type => resolveType domain type) types) env in
  (results ← allSettled schedule promises;
   Some (Fulfilled (imap (settledToResult types) results)),
   env').
End Dns.

(** ** More built-ins: strings *)

Module Str.

(** [String.prototype.repeat]. *)
Fixpoint repeat (s : string) (n : nat) : string :=
  match n with
  | O => ""
  | S n' => s +:+ repeat s n'
  end.

(** [String.prototype.split] with a non-empty separator: the pieces
    between the occurrences of [sep], scanning from the left.  [skip]
    counts the characters of a separator still to be passed over and
    [piece] holds the current piece, reversed. *)
Fixpoint splitFrom (sep : string) (skip : nat) (piece : list ascii)
    (s : string) : list string :=
  match s with
  | "" => [string_of_list_ascii (rev piece)]
  | String c s' =>
      match skip with
      | S k => splitFrom sep k piece s'
      | O =>
          if String.prefix sep s
          then string_of_list_ascii (rev piece)
               :: splitFrom sep (String.length sep - 1) [] s'
          else splitFrom sep O (c :: piece) s'
      end
  end.

Definition split (sep : string) (s : string) : list string :=
  splitFrom sep O [] s.

(** What [chalk] and a template literal make of a destructured element
    that may be [undefined]. *)
Definition ofElement (o : option string) : string :=
  match o with
  | Some s => s
  | None => "undefined"
  end.

End Str.

(** ** JSON values, [JSON.stringify] and [JSON.parse] *)

#[local] Unset Elimination Schemes.
Inductive json :=
| JNull
| JBool (b : bool)
| JString (s : string)
| JArray (items : list json)
| JObject (members : list (string * json)).
#[local] Set Elimination Schemes.

Module JSON.

Definition dquote : ascii := ascii_of_nat 34.

(** A lower-case hexadecimal digit. *)
Definition hexDigit (n : N) : ascii :=
  ascii_of_N (if (n <? 10)%N then 48 + n else 87 + n)%N.

(** QuoteJSONString, one character: the two-character escapes, [\u00xx]
    for the other control characters, anything else as it is. *)
Definition quoteChar (c : ascii) : string :=
  let n := N_of_ascii c in
  if (n =? 8)%N then "\b"
  else if (n =? 9)%N then "\t"
  else if (n =? 10)%N then "\n"
  else if (n =? 12)%N then "\f"
  else if (n =? 13)%N then "\r"
  else if (n =? 34)%N then "\" +:+ String dquote ""
  else if (n =? 92)%N then "\\"
  else if (n <? 32)%N
       then "\u00" +:+ String (hexDigit (n / 16)) (String (hexDigit (n mod 16)) "")
  else String c "".

Fixpoint quoteChars (s : string) : string :=
  match s with
  | "" => ""
  | String c s' => quoteChar c +:+ quoteChars s'
  end.

Definition quote (s : string) : string :=
  String dquote (quoteChars s +:+ String dquote "").

Definition newline : string := String (ascii_of_nat 10) "".

(** The indentation at nesting depth [depth] for a gap of two spaces. *)
Definition indentOf (depth : nat) : string := Str.repeat "  " depth.

(** SerializeJSONProperty with gap ["  "]; [depth] is the nesting depth
    of the value. *)
Fixpoint serialize (depth : nat) (v : json) : string :=
  match v with
  | JNull => "null"
  | JBool true => "true"
  | JBool false => "false"
  | JString s => quote s
  | JArray items =>
      match items with
      | [] => "[]"
      | _ =>
          "[" +:+ newline +:+ indentOf (S depth)
          +:+ JS.join ("," +:+ newline +:+ indentOf (S depth))
                (map (serialize (S depth)) items)
          +:+ newline +:+ indentOf depth +:+ "]"
      end
  | JObject members =>
      match members with
      | [] => "{}"
      | _ =>
          "{" +:+ newline +:+ indentOf (S depth)
          +:+ JS.join ("," +:+ newline +:+ indentOf (S depth))
                (map (fun m => quote (fst m) +:+ ": "
                               +:+ serialize (S depth) (snd m))
                   members)
          +:+ newline +:+ indentOf depth +:+ "}"
      end
  end.

(** [JSON.stringify(value, null, 2)]. *)
Definition stringify (v : json) : string := serialize 0 v.

(** *** The parser *)

Definition isWs (c : ascii) : bool :=
  let n := N_of_ascii c in
  (n =? 32)%N || (n =? 9)%N || (n =? 10)%N || (n =? 13)%N.

Fixpoint skipWs (s : string) : string :=
  match s with
  | "" => ""
  | String c s' => if isWs c then skipWs s' else s
  end.

Definition hexValue (c : ascii) : option N :=
  let n := N_of_ascii c in
  if (48 <=? n)%N && (n <=? 57)%N then Some (n - 48)%N
  else if (97 <=? n)%N && (n <=? 102)%N then Some (n - 87)%N
  else if (65 <=? n)%N && (n <=? 70)%N then Some (n - 55)%N
  else None.

(** The UTF-8 encoding of a code unit of the basic plane; a surrogate
    has none. *)
Definition utf8 (cp : N) : option string :=
  if (cp <? 128)%N then Some (String (ascii_of_N cp) "")
  else if (cp <? 2048)%N
  then Some (String (ascii_of_N (192 + cp / 64))
               (String (ascii_of_N (128 + cp mod 64)) ""))
  else if (55296 <=? cp)%N && (cp <? 57344)%N then None
  else Some (String (ascii_of_N (224 + cp / 4096))
               (String (ascii_of_N (128 + (cp / 64) mod 64))
                  (String (ascii_of_N (128 + cp mod 64)) ""))).

Definition simpleEscape (c : ascii) : option ascii :=
  let n := N_of_ascii c in
  if (n =? 34)%N then Some c
  else if (n =? 92)%N then Some c
  else if (n =? 47)%N then Some c
  else if (n =? 98)%N then Some (ascii_of_nat 8)
  else if (n =? 102)%N then Some (ascii_of_nat 12)
  else if (n =? 110)%N then Some (ascii_of_nat 10)
  else if (n =? 114)%N then Some (ascii_of_nat 13)
  else if (n =? 116)%N then Some (ascii_of_nat 9)
  else None.

(** The characters of a string literal after its opening quote, up to
    and with the closing quote: the text and what follows the literal. *)
Fixpoint parseChars (s : string) : option (string * string) :=
  match s with
  | "" => None
  | String c s' =>
      let n := N_of_ascii c in
      if (n =? 34)%N then Some ("", s')
      else if (n =? 92)%N then
        match s' with
        | "" => None
        | String e s'' =>
            if (N_of_ascii e =? 117)%N then
              match s'' with
              | String h1 (String h2 (String h3 (String h4 s3))) =>
                  d1 ← hexValue h1; d2 ← hexValue h2;
                  d3 ← hexValue h3; d4 ← hexValue h4;
                  bytes ← utf8 (((d1 * 16 + d2) * 16 + d3) * 16 + d4)%N;
                  r ← parseChars s3;
                  Some (bytes +:+ fst r, snd r)
              | _ => None
              end
            else
              c' ← simpleEscape e;
              r ← parseChars s'';
              Some (String c' (fst r), snd r)
        end
      else if (n <? 32)%N then None
      else r ← parseChars s'; Some (String c (fst r), snd r)
  end.

Section Sequences.
Context (parseItem : string -> option (json * string)).

(** The elements of a non-empty array, up to and with its closing
    bracket. *)
Fixpoint parseElements (fuel : nat) (s : string)
  : option (list json * string) :=
  match fuel with
  | O => None
  | S fuel' =>
      r ← parseItem s;
      match skipWs (snd r) with
      | String c rest =>
          if (N_of_ascii c =? 44)%N then
            rs ← parseElements fuel' rest;
            Some (fst r :: fst rs, snd rs)
          else if (N_of_ascii c =? 93)%N then Some ([fst r], rest)
          else None
      | "" => None
      end
  end.

(** The members of a non-empty object, up to and with its closing
    brace. *)
Fixpoint parseMembers (fuel : nat) (s : string)
  : option (list (string * json) * string) :=
  match fuel with
  | O => None
  | S fuel' =>
      match skipWs s with
      | String q afterQuote =>
          if (N_of_ascii q =? 34)%N then
            key ← parseChars afterQuote;
            match skipWs (snd key) with
            | String colon afterColon =>
                if (N_of_ascii colon =? 58)%N then
                  r ← parseItem afterColon;
                  match skipWs (snd r) with
                  | String c rest =>
                      if (N_of_ascii c =? 44)%N then
                        rs ← parseMembers fuel' rest;
                        Some ((fst key, fst r) :: fst rs, snd rs)
                      else if (N_of_ascii c =? 125)%N
                      then Some ([(fst key, fst r)], rest)
                      else None
                  | "" => None
                  end
                else None
            | "" => None
            end
          else None
      | "" => None
      end
  end.
End Sequences.

(** A literal name at the head of the text. *)
Fixpoint dropPrefix (lit s : string) : option string :=
  match lit with
  | "" => Some s
  | String a lit' =>
      match s with
      | String b s' => if Ascii.eqb a b then dropPrefix lit' s' else None
      | "" => None
      end
  end.

Definition parseLiteral (lit : string) (v : json) (s : string)
  : option (json * string) :=
  rest ← dropPrefix lit s; Some (v, rest).

(** One value and the text after it.  Numbers are not part of the
    documents of this program and are not read. *)
Fixpoint parseValue (fuel : nat) (s : string) : option (json * string) :=
  match fuel with
  | O => None
  | S fuel' =>
      match skipWs s with
      | "" => None
      | String c rest =>
          let n := N_of_ascii c in
          if (n =? 34)%N then
            r ← parseChars rest; Some (JString (fst r), snd r)
          else if (n =? 91)%N then
            match skipWs rest with
            | String c' rest' =>
                if (N_of_ascii c' =? 93)%N then Some (JArray [], rest')
                else r ← parseElements (parseValue fuel') fuel' rest;
                     Some (JArray (fst r), snd r)
            | "" => None
            end
          else if (n =? 123)%N then
            match skipWs rest with
            | String c' rest' =>
                if (N_of_ascii c' =? 125)%N then Some (JObject [], rest')
                else r ← parseMembers (parseValue fuel') fuel' rest;
                     Some (JObject (fst r), snd r)
            | "" => None
            end
          else if (n =? 110)%N then parseLiteral "null" JNull (String c rest)
          else if (n =? 116)%N then parseLiteral "true" (JBool true) (String c rest)
          else if (n =? 102)%N then parseLiteral "false" (JBool false) (String c rest)
          else None
      end
  end.

(** [JSON.parse]: one value, then nothing but white space. *)
Definition parse (s : string) : option json :=
  r ← parseValue (String.length s) s;
  match skipWs (snd r) with
  | "" => Some (fst r)
  | _ => None
  end.

End JSON.

(** ** formatter.ts *)

(** [TYPE_LABELS], a [Record<string, string>], and the property read
    [TYPE_LABELS[key]] on it. *)
Definition TYPE_LABELS : list (string * string) :=
  [ ("A", "A (IPv4)");
    ("AAAA", "AAAA (IPv6)");
    ("CNAME", "CNAME (Canonical Name)");
    ("MX", "MX (Mail Exchange)");
    ("NS", "NS (Name Servers)");
    ("TXT", "TXT (Text)");
    ("SOA", "SOA (Start of Authority)");
    ("CAA", "CAA (Certificate Authority)");
    ("SRV", "SRV (Service)") ].

Fixpoint lookupLabel (table : list (string * string)) (key : string)
  : option string :=
  match table with
  | [] => None
  | (k, v) :: table' => if String.eqb k key then Some v else lookupLabel table' key
  end.

(** The JavaScript value of a result, as [JSON.stringify] sees it: the
    properties in the order the resolver writes them, [error] only when the
    property is there. *)
Definition resultValue (r : DnsResult) : json :=
  JObject
    ([ ("type", JString (typeName (type r)));
       ("records", JArray (map JString (records r))) ]
     ++ match error r with
        | Some e => [("error", JString e)]
        | None => []
        end).

Definition documentValue (domain : string) (results : list DnsResult) : json :=
  JObject [ ("domain", JString domain);
            ("results", JArray (map resultValue results)) ].

Definition formatJson (domain : string) (results : list DnsResult) : string :=
  JSON.stringify (documentValue domain results).

(** The styles of [chalk] the formatter chains. *)
Inductive Style := Bold | Dim | Cyan | White | Red | Green | Yellow.

(** The options given to [new Table(...)] of cli-table3. *)
Record TableOptions := mkTableOptions {
  head : list string;
  paddingLeft : Z;
  paddingRight : Z;
  styleHead : list string;
  styleBorder : list string;
  chars : list (string * string)
}.

Definition tableChars : list (string * string) :=
  [ ("top", ""); ("top-mid", ""); ("top-left", ""); ("top-right", "");
    ("bottom", ""); ("bottom-mid", ""); ("bottom-left", "");
    ("bottom-right", ""); ("left", "    "); ("left-mid", ""); ("mid", "");
    ("mid-mid", ""); ("right", ""); ("right-mid", ""); ("middle", "  ") ].

Record TableState := mkTableState {
  lines : list string;
  hasAnyRecords : bool
}.

Section Table.
(** The two rendering libraries are taken as they come: [chalk styles s]
    is [chalk.s1.s2(s)], [tableToString options rows] is the [toString()]
    of a table with these options after the rows were pushed. *)
Context (chalk : list Style -> string -> string).
Context (tableToString : TableOptions -> list (list string) -> string).

Definition tableOptions (head : list string) : TableOptions :=
  mkTableOptions head 4 2 [] [] tableChars.

Definition soaRow (record : string) : list string :=
  match Str.split ": " record with
  | key :: valueParts => [chalk [Dim] key; chalk [White] (JS.join ": " valueParts)]
  | [] => [chalk [Dim] (Str.ofElement None); chalk [White] ""]
  end.

Definition mxRow (record : string) : list string :=
  match Str.split " " record with
  | priority :: rest => [chalk [Yellow] priority; chalk [White] (JS.join " " rest)]
  | [] => [chalk [Yellow] (Str.ofElement None); chalk [White] ""]
  end.

Definition caaRow (record : string) : list string :=
  let parts := Str.split " " record in
  [ chalk [Yellow] (Str.ofElement (parts !! 0%nat));
    chalk [Cyan] (Str.ofElement (parts !! 1%nat));
    chalk [White] (JS.join " " (drop 2 parts)) ].

Definition srvRow (record : string) : list string :=
  let parts := Str.split " " record in
  [ chalk [Yellow] (Str.ofElement (parts !! 0%nat));
    chalk [White] (Str.ofElement (parts !! 1%nat));
    chalk [Cyan] (Str.ofElement (parts !! 2%nat));
    chalk [White] (Str.ofElement (parts !! 3%nat)) ].

(** The table of a result with records, by record type. *)
Definition recordsTable (result : DnsResult) : string :=
  match type result with
  | SOA => tableToString (tableOptions []) (map soaRow (records result))
  | MX =>
      tableToString
        (tableOptions [chalk [Dim] "Priority"; chalk [Dim] "Exchange"])
        (map mxRow (records result))
  | CAA =>
      tableToString
        (tableOptions [chalk [Dim] "Flags"; chalk [Dim] "Tag"; chalk [Dim] "Value"])
        (map caaRow (records result))
  | SRV =>
      tableToString
        (tableOptions [chalk [Dim] "Priority"; chalk [Dim] "Weight";
                       chalk [Dim] "Port"; chalk [Dim] "Target"])
        (map srvRow (records result))
  | _ =>
      tableToString (tableOptions [])
        (map (fun record => [chalk [White] record]) (records result))
  end.

(** One turn of the loop over the results. *)
Definition tableStep (short : bool) (st : TableState) (result : DnsResult)
  : TableState :=
  if short && (length (records result) =? 0)%nat
     && negb (JS.truthyOpt (error result))
  then st
  else
    let label :=
      JS.nullish (lookupLabel TYPE_LABELS (typeName (type result)))
        (typeName (type result)) in
    if JS.truthyOpt (error result) then
      mkTableState
        (lines st
         ++ [ chalk [Red] ("  ✖ " +:+ label);
              chalk [Red; Dim]
                ("    Error: " +:+ Str.ofElement (error result));
              "" ])
        true
    else if (length (records result) =? 0)%nat then
      mkTableState
        (lines st
         ++ [ chalk [Dim] ("  ○ " +:+ label) +:+ chalk [Dim] "  — no records";
              "" ])
        (hasAnyRecords st)
    else
      mkTableState
        (lines st
         ++ [ chalk [Green] ("  ● " +:+ label); recordsTable result; "" ])
        true.

Definition tableHeader (domain : string) : list string :=
  [ "";
    chalk [Bold; Cyan] "  DNS Records for " +:+ chalk [Bold; White] domain;
    chalk [Dim] ("  " +:+ Str.repeat "─" 50);
    "" ].

Definition tableSummary : list string :=
  [ chalk [Dim] "  No DNS records found."; "" ].

Definition formatTableLines (domain : string) (results : list DnsResult)
    (short : bool) : list string :=
  let st := foldl (tableStep short) (mkTableState (tableHeader domain) false)
              results in
  if negb (hasAnyRecords st) && short
  then lines st ++ tableSummary
  else lines st.

Definition formatTable (domain : string) (results : list DnsResult)
    (short : bool) : string :=
  JS.join JSON.newline (formatTableLines domain results short).
End Table.

(** ** Vocabulary of the statements *)

(** The platform method a record type is resolved with. *)
Definition methodOf (t : RecordType) : Method :=
  match t with
  | A => Resolve4 | AAAA => Resolve6 | CNAME => ResolveCname
  | MX => ResolveMx | NS => ResolveNs | TXT => ResolveTxt
  | SOA => ResolveSoa | CAA => ResolveCaa | SRV => ResolveSrv
  end.

Definition rejection {T} (o : Outcome T) : option ErrnoException :=
  match o with
  | Rejects err => Some err
  | Resolves _ => None
  end.

(** The error the platform call for [t] rejects with in world [w], if it
    does. *)
Definition platformRejection {W} (dns : Resolver W) (domain : string)
    (t : RecordType) (w : W) : option ErrnoException :=
  match t with
  | A => rejection (resolve4 dns domain w).1
  | AAAA => rejection (resolve6 dns domain w).1
  | CNAME => rejection (resolveCname dns domain w).1
  | MX => rejection (resolveMx dns domain w).1
  | NS => rejection (resolveNs dns domain w).1
  | TXT => rejection (resolveTxt dns domain w).1
  | SOA => rejection (resolveSoa dns domain w).1
  | CAA => rejection (resolveCaa dns domain w).1
  | SRV => rejection (resolveSrv dns domain w).1
  end.

(** Benign absence: no data for the name and type, or no such name. *)
Definition benign (err : ErrnoException) : Prop :=
  code err = Some "ENODATA" \/ code err = Some "ENOTFOUND".

(** The text a failure is reported with: its message when it has a
    non-empty one, else the per-type fallback. *)
Definition failureText (t : RecordType) (err : ErrnoException) : string :=
  match message err with
  | Some (String c m) => String c m
  | _ => "Failed to resolve " +:+ typeName t +:+ " records"
  end.

(** Records and error are never both populated. *)
Definition exclusive (r : DnsResult) : Prop :=
  (records r <> [] -> error r = None) /\
  (is_Some (error r) -> records r = []).

(** Chunks put one after the other, nothing in between. *)
Definition concatenated (chunks : list string) : string :=
  foldr String.append "" chunks.

(** The lines the loop of [formatTable] adds for one result. *)
Definition emitted (chalk : list Style -> string -> string)
    (tableToString : TableOptions -> list (list string) -> string)
    (short : bool) (result : DnsResult) : list string :=
  drop (length (tableHeader chalk ""))
    (lines (tableStep chalk tableToString short
              (mkTableState (tableHeader chalk "") false) result)).

(** A result without visible content, as the loop tests it: no records,
    and an error that is absent or the empty string. *)
Definition contentless (r : DnsResult) : Prop :=
  records r = [] /\ (error r = None \/ error r = Some "").

(** Reading a parsed document back into a domain and results. *)
Definition typeOfName (s : string) : option RecordType :=
  p ← list_find (fun t => typeName t = s) RECORD_TYPES; Some p.2.

Definition asString (v : json) : option string :=
  match v with
  | JString s => Some s
  | _ => None
  end.

Definition asArray (v : json) : option (list json) :=
  match v with
  | JArray items => Some items
  | _ => None
  end.

Fixpoint member (key : string) (members : list (string * json))
  : option json :=
  match members with
  | [] => None
  | (k, v) :: members' => if String.eqb k key then Some v else member key members'
  end.

Definition asResult (v : json) : option DnsResult :=
  match v with
  | JObject members =>
      tv ← member "type" members; tn ← asString tv; t ← typeOfName tn;
      rv ← member "records" members; ra ← asArray rv; rs ← mapM asString ra;
      match member "error" members return option DnsResult with
      | None => Some (mkDnsResult t rs None)
      | Some e => e' ← asString e; Some (mkDnsResult t rs (Some e'))
      end
  | _ => None
  end.

Definition asDocument (v : json) : option (string * list DnsResult) :=
  match v with
  | JObject members =>
      dv ← member "domain" members; d ← asString dv;
      rv ← member "results" members; ra ← asArray rv; rs ← mapM asResult ra;
      Some (d, rs)
  | _ => None
  end.

(** The number of values in a JSON value, itself included. *)
Fixpoint jsonSize (v : json) : nat :=
  match v with
  | JArray items => S (sum_list (map jsonSize items))
  | JObject members => S (sum_list (map (fun m => jsonSize (snd m)) members))
  | _ => 1%nat
  end.

(** The text of a value starts with a character that is neither white
    space nor a closing bracket. *)
Definition opensValue (c : ascii) : Prop :=
  JSON.isWs c = false /\ (N_of_ascii c =? 93)%N = false
  /\ (N_of_ascii c =? 125)%N = false.

(** The separator between the items of an array or the members of an
    object at nesting depth [depth]. *)
Definition separatorAt (depth : nat) : string :=
  "," +:+ JSON.newline +:+ JSON.indentOf depth.

(** The text of one member of an object. *)
Definition memberText (depth : nat) (m : string * json) : string :=
  JSON.quote (fst m) +:+ ": " +:+ JSON.serialize depth (snd m).

(** A value is read back, whatever follows it, with fuel for its size. *)
Definition readsBack (depth : nat) (v : json) : Prop :=
  forall fuel rest, (jsonSize v <= fuel)%nat ->
    JSON.parseValue fuel (JSON.serialize depth v +:+ rest) = Some (v, rest).

(** ** A scenario

    A platform whose world counts the calls it has served; the answers are
    those of the test suite, with one failure of each kind. *)
Definition scenarioDns : Resolver nat :=
  {| resolve4 := fun _ w => (Resolves ["93.184.216.34"], S w);
     resolve6 := fun domain w =>
       (Rejects (mkErrno (Some "ENODATA") (Some ("queryAaaa ENODATA " +:+ domain))),
        S w);
     resolveCname := fun domain w =>
       (Rejects (mkErrno (Some "ENOTFOUND") (Some ("queryCname ENOTFOUND " +:+ domain))),
        S w);
     resolveMx := fun _ w =>
       (Resolves [ mkMx 20 "mx2.example.com"; mkMx 10 "mx1.example.com";
                   mkMx 0 "."; mkMx 10 "mx1b.example.com" ], S w);
     resolveNs := fun _ w =>
       (Rejects (mkErrno (Some "ECONNREFUSED") (Some "Connection refused")), S w);
     resolveTxt := fun _ w =>
       (Resolves [ ["v=spf1 include:_spf.example.com"; " ~all"];
                   ["google-site-verification=abc123"] ], S w);
     resolveSoa := fun _ w => (Rejects (mkErrno None (Some "")), S w);
     resolveCaa := fun _ w =>
       (Resolves [ mkCaa 128 (Some "letsencrypt.org") None None;
                   mkCaa 0 None (Some "letsencrypt.org") None;
                   mkCaa 0 None None (Some "mailto:admin@example.com");
                   mkCaa 0 None None None ], S w);
     resolveSrv := fun _ w =>
       (Resolves [ mkSrv 10 60 5060 "sip.example.com" ], S w) |}.

Definition scenarioEnv : Env nat := mkEnv 0%nat [].

(** The renderers of the test suite: [chalk] without colours, and a table
    that puts the cells of a row side by side. *)
Definition plainChalk : list Style -> string -> string := fun _ s => s.

Definition plainTable : TableOptions -> list (list string) -> string :=
  fun _ rows => JS.join JSON.newline (map (JS.join "  ") rows).

(** ** Vocabulary of the further statements *)

(** [sep] occurs in [s]. *)
Definition occursIn (sep s : string) : Prop :=
  exists a b, s = a +:+ sep +:+ b.

(** The character [c] is one of the characters of [s]. *)
Fixpoint hasChar (c : ascii) (s : string) : bool :=
  match s with
  | "" => false
  | String c' s' => Ascii.eqb c c' || hasChar c s'
  end.

(** The number a decimal numeral stands for: digits, the first of them not
    a zero, after a minus sign for a negative number; the numeral of zero is
    the single digit 0.  [None]: the text is not such a numeral. *)
Definition digitValue (c : ascii) : option N :=
  let n := N_of_ascii c in
  if (48 <=? n)%N && (n <=? 57)%N then Some (n - 48)%N else None.

Fixpoint digitsValue (acc : N) (s : string) : option N :=
  match s with
  | "" => Some acc
  | String c s' =>
      match digitValue c with
      | Some d => digitsValue (10 * acc + d) s'
      | None => None
      end
  end.

Definition naturalValue (s : string) : option N :=
  match s with
  | "" => None
  | String c _ => if Ascii.eqb c "0" then None else digitsValue 0 s
  end.

Definition numeralValue (s : string) : option Z :=
  if String.eqb s "0" then Some 0%Z
  else
    match s with
    | "" => None
    | String c s' =>
        if Ascii.eqb c "-"
        then (fun n => (- Z.of_N n)%Z) <$> naturalValue s'
        else Z.of_N <$> naturalValue s
    end.

(** A platform whose CAA answer has a flags octet with a reserved bit set
    and the critical bit clear. *)
Definition reservedFlagDns : Resolver nat :=
  {| resolve4 := resolve4 scenarioDns;
     resolve6 := resolve6 scenarioDns;
     resolveCname := resolveCname scenarioDns;
     resolveMx := resolveMx scenarioDns;
     resolveNs := resolveNs scenarioDns;
     resolveTxt := resolveTxt scenarioDns;
     resolveSoa := resolveSoa scenarioDns;
     resolveCaa := fun _ w =>
       (Resolves [ mkCaa 1 (Some "ca.example") None None ], S w);
     resolveSrv := resolveSrv scenarioDns |}.

(** The characters of [s] before its first space. *)
Fixpoint firstWord (s : string) : string :=
  match s with
  | "" => ""
  | String c s' => if Ascii.eqb c " " then "" else String c (firstWord s')
  end.

(** The text of the second column of the MX table for an answer. *)
Definition exchangeText (r : MxRecord) : string :=
  if decide (priority r = 0%Z /\ exchange r = ".")
  then ". (null MX — domain does not accept mail)"
  else exchange r.

(** A platform that answers every query, with the answers of the test
    suite. *)
Definition answeringDns : Resolver nat :=
  {| resolve4 := fun _ w => (Resolves ["93.184.216.34"; "93.184.216.35"], S w);
     resolve6 := fun _ w =>
       (Resolves ["2606:2800:220:1:248:1893:25c8:1946"], S w);
     resolveCname := fun _ w => (Resolves ["www.example.com"], S w);
     resolveMx := fun _ w =>
       (Resolves [ mkMx 20 "mx2.example.com"; mkMx 10 "mx1.example.com";
                   mkMx 30 "mx3.example.com" ], S w);
     resolveNs := fun _ w =>
       (Resolves ["ns1.example.com"; "ns2.example.com"], S w);
     resolveTxt := fun _ w =>
       (Resolves [ ["v=spf1 include:_spf.example.com"; " ~all"];
                   ["google-site-verification=abc123"] ], S w);
     resolveSoa := fun _ w =>
       (Resolves (mkSoa "ns1.example.com" "admin.example.com"
                    2024010101 3600 900 604800 86400), S w);
     resolveCaa := fun _ w =>
       (Resolves [ mkCaa 0 (Some "letsencrypt.org") None None ], S w);
     resolveSrv := fun _ w =>
       (Resolves [ mkSrv 10 60 5060 "sip.example.com";
                   mkSrv 20 10 5060 "sip2.example.com" ], S w) |}.

(** The answer of the platform to a query of one of the four types whose
    answers are lists of strings, if it answers. *)
Definition resolved {T} (o : Outcome T) : option T :=
  match o with
  | Resolves answer => Some answer
  | Rejects _ => None
  end.

Definition plainAnswer {W} (dns : Resolver W) (domain : string)
    (t : RecordType) (w : W) : option (list string) :=
  match t with
  | A => resolved (resolve4 dns domain w).1
  | AAAA => resolved (resolve6 dns domain w).1
  | CNAME => resolved (resolveCname dns domain w).1
  | NS => resolved (resolveNs dns domain w).1
  | _ => None
  end.

#[global] Instance contentless_dec (r : DnsResult) : Decision (contentless r).
Proof. unfold contentless. apply _. Defined.

(** * The command line: index.ts

    The action of the command validates the domain against a regular
    expression, parses the requested record types, resolves them and prints
    the outcome.  The console, the spinner and the exit of the process are
    events of a trace. *)

(** ** Regular expressions

    The expressions of the fragment the source uses, and [test] for an
    expression anchored at both ends ([/^...$/]): whether the whole text is
    in the language of the expression.  A character class is a list of
    ranges of code units; a text is matched byte by byte, and no byte of a
    character outside ASCII is in a range of ASCII characters. *)
Module RegExp.

Inductive regex :=
| Never
| Empty
| Class (ranges : list (ascii * ascii))
| Seq (r1 r2 : regex)
| Alt (r1 r2 : regex)
| Star (r : regex).

(** [c], [r?], [r+] and [r{n,}]. *)
Definition Lit (c : ascii) : regex := Class [(c, c)].
Definition Opt (r : regex) : regex := Alt r Empty.
Definition Plus (r : regex) : regex := Seq r (Star r).
Fixpoint AtLeast (n : nat) (r : regex) : regex :=
  match n with
  | O => Star r
  | S n' => Seq r (AtLeast n' r)
  end.

Definition inRanges (ranges : list (ascii * ascii)) (c : ascii) : bool :=
  existsb (fun range =>
             (N_of_ascii (fst range) <=? N_of_ascii c)%N
             && (N_of_ascii c <=? N_of_ascii (snd range))%N)
    ranges.

(** The language of an expression. *)
Inductive Matches : regex -> string -> Prop :=
| MEmpty : Matches Empty ""
| MClass ranges c : inRanges ranges c = true -> Matches (Class ranges) (String c "")
| MSeq r1 r2 s1 s2 :
    Matches r1 s1 -> Matches r2 s2 -> Matches (Seq r1 r2) (s1 +:+ s2)
| MAltL r1 r2 s : Matches r1 s -> Matches (Alt r1 r2) s
| MAltR r1 r2 s : Matches r2 s -> Matches (Alt r1 r2) s
| MStarNil r : Matches (Star r) ""
| MStarCons r s1 s2 :
    Matches r s1 -> Matches (Star r) s2 -> Matches (Star r) (s1 +:+ s2).

(** Matching by derivatives: [deriv c r] matches the texts [s] such that
    [r] matches [c] followed by [s]. *)
Fixpoint nullable (r : regex) : bool :=
  match r with
  | Never => false
  | Empty => true
  | Class _ => false
  | Seq r1 r2 => nullable r1 && nullable r2
  | Alt r1 r2 => nullable r1 || nullable r2
  | Star _ => true
  end.

Fixpoint deriv (c : ascii) (r : regex) : regex :=
  match r with
  | Never => Never
  | Empty => Never
  | Class ranges => if inRanges ranges c then Empty else Never
  | Seq r1 r2 =>
      if nullable r1
      then Alt (Seq (deriv c r1) r2) (deriv c r2)
      else Seq (deriv c r1) r2
  | Alt r1 r2 => Alt (deriv c r1) (deriv c r2)
  | Star r' => Seq (deriv c r') (Star r')
  end.

Fixpoint test (r : regex) (s : string) : bool :=
  match s with
  | "" => nullable r
  | String c s' => test (deriv c r) s'
  end.

End RegExp.

(** [/^([a-zA-Z0-9]([a-zA-Z0-9-]*[a-zA-Z0-9])?\.)+[a-zA-Z]{2,}$/] *)
Definition domainRegex : RegExp.regex :=
  let letters := [("a", "z"); ("A", "Z")]%char in
  let alnum := (letters ++ [("0", "9")])%char in
  RegExp.Seq
    (RegExp.Plus
       (RegExp.Seq (RegExp.Class alnum)
          (RegExp.Seq
             (RegExp.Opt
                (RegExp.Seq (RegExp.Star (RegExp.Class (alnum ++ [("-", "-")]%char)))
                   (RegExp.Class alnum)))
             (RegExp.Lit "."))))
    (RegExp.AtLeast 2 (RegExp.Class letters)).

(** ** Text of ASCII characters

    [String.prototype.toUpperCase] and [String.prototype.trim] are methods
    of the platform: the action is modelled over them as they come.  What
    they give on a text of ASCII characters is written here, [upper] and
    [trimmed]; it is what the statements on ASCII requests assume of the
    two methods, and nothing is assumed of them on other text.  The
    scenarios, whose requests are ASCII, run with [upper] and [trimmed] in
    the place of the two methods. *)
Module AsciiText.

Fixpoint all (p : ascii -> bool) (s : string) : bool :=
  match s with
  | "" => true
  | String c s' => p c && all p s'
  end.

Definition isAscii (s : string) : bool :=
  all (fun c => (N_of_ascii c <? 128)%N) s.

(** The letters a to z in upper case, any other character as it is. *)
Definition upperChar (c : ascii) : ascii :=
  if (97 <=? N_of_ascii c)%N && (N_of_ascii c <=? 122)%N
  then ascii_of_N (N_of_ascii c - 32)
  else c.

Fixpoint upper (s : string) : string :=
  match s with
  | "" => ""
  | String c s' => String (upperChar c) (upper s')
  end.

(** The white space and line terminators of ASCII: tab, line feed,
    vertical tab, form feed, carriage return, space. *)
Definition isWhiteSpace (c : ascii) : bool :=
  ((9 <=? N_of_ascii c)%N && (N_of_ascii c <=? 13)%N)
  || (N_of_ascii c =? 32)%N.

Fixpoint trimStart (s : string) : string :=
  match s with
  | "" => ""
  | String c s' => if isWhiteSpace c then trimStart s' else s
  end.

Fixpoint trimEnd (s : string) : string :=
  match s with
  | "" => ""
  | String c s' =>
      match trimEnd s' with
      | "" => if isWhiteSpace c then "" else String c ""
      | rest => String c rest
      end
  end.

(** The text without the white space at its two ends. *)
Definition trimmed (s : string) : string := trimEnd (trimStart s).

End AsciiText.

(** The two methods do, on ASCII text, what ECMAScript says. *)
Definition asciiMethods (toUpperCase trim : string -> string) : Prop :=
  forall s, AsciiText.isAscii s = true ->
    toUpperCase s = AsciiText.upper s /\ trim s = AsciiText.trimmed s.

(** ** The options and the type list *)

Module CliOptions.
Record t := mk {
  type : option string;
  json : option bool;
  short : option bool
}.
End CliOptions.

(** [RECORD_TYPES.includes(t)] *)
Definition includesType (t : string) : bool :=
  existsb (fun type => String.eqb (typeName type) t) RECORD_TYPES.

Section TypeList.
(** [s.toUpperCase()] and [s.trim()] *)
Context (toUpperCase trim : string -> string).

(** The type list of the action: the types, or the requested entries that
    are not types. *)
Definition parseTypes (typeOption : option string)
  : list RecordType + list string :=
  match typeOption with
  | Some text =>
      if JS.truthy text then
        let requested := map trim (Str.split "," (toUpperCase text)) in
        let invalid := List.filter (fun t => negb (includesType t)) requested in
        if (0 <? length invalid)%nat
        then inr invalid
        else inl (omap typeOfName requested)
      else inl RECORD_TYPES
  | None => inl RECORD_TYPES
  end.
End TypeList.

(** ** The action *)

Inductive Event :=
| ConsoleError (text : string)
| ConsoleLog (text : string)
| SpinnerStart (text color : string) (isSilent : bool)
| SpinnerStop
| SpinnerFail (text : string).

(** How the action ends: it returns, the process exits with a code, an
    exception escapes, or it waits for ever. *)
Inductive Completion := Returns | Exits (code : Z) | Throws | Pending.

Section Action.
Context {W : Type} (dns : Resolver W).
Context (chalk : list Style -> string -> string).
Context (tableToString : TableOptions -> list (list string) -> string).
Context (toUpperCase trim : string -> string).

(** [isTTY] is [process.stdout.isTTY]; [schedule] the order in which the
    queries complete. *)
Definition action (isTTY : bool) (schedule : list nat) (domain : string)
    (options : CliOptions.t) (env : Env W)
  : list Event * Completion * Env W :=
  if negb (RegExp.test domainRegex domain) then
    ([ ConsoleError (chalk [Red] (JSON.newline +:+ "Invalid domain: " +:+ domain));
       ConsoleError
         (chalk [Dim]
            ("Expected a domain like example.com or sub.example.co.uk"
             +:+ JSON.newline)) ],
     Exits 1, env)
  else
    match parseTypes toUpperCase trim (CliOptions.type options) with
    | inr invalid =>
        ([ ConsoleError
             (chalk [Red]
                (JSON.newline +:+ "Unknown record type(s): "
                 +:+ JS.join ", " invalid));
           ConsoleError
             (chalk [Dim]
                ("Valid types: " +:+ JS.join ", " (map typeName RECORD_TYPES)
                 +:+ JSON.newline)) ],
         Exits 1, env)
    | inl types =>
        let json := JS.nullish (CliOptions.json options) false in
        let isInteractive := negb json && isTTY in
        let started :=
          SpinnerStart
            ("Resolving DNS records for " +:+ chalk [Bold] domain +:+ "...")
            "cyan" (negb isInteractive) in
        match resolveDns dns schedule domain types env with
        | (None, env') => ([started], Pending, env')
        | (Some (Fulfilled results), env') =>
            ([ started; SpinnerStop;
               ConsoleLog
                 (if json then formatJson domain results
                  else formatTable chalk tableToString domain results
                         (JS.nullish (CliOptions.short options) false)) ],
             Returns, env')
        | (Some (Rejected err), env') =>
            let failed :=
              SpinnerFail (chalk [Red] ("Failed to resolve DNS for " +:+ domain)) in
            match err with
            | Some error =>
                ([ started; failed;
                   ConsoleError
                     (chalk [Red; Dim]
                        ("  " +:+ Str.ofElement (message error))) ],
                 Exits 1, env')
            | None => ([started; failed], Throws, env')
            end
        end
    end.
End Action.

(** ** Vocabulary of the statements on domains and type lists *)

Definition isLetter (c : ascii) : bool :=
  RegExp.inRanges [("a", "z"); ("A", "Z")]%char c.

Definition isAlnum (c : ascii) : bool :=
  RegExp.inRanges [("a", "z"); ("A", "Z"); ("0", "9")]%char c.

Definition isLabelChar (c : ascii) : bool :=
  RegExp.inRanges [("a", "z"); ("A", "Z"); ("0", "9"); ("-", "-")]%char c.

(** The last character of [c] followed by [s]. *)
Fixpoint lastChar (c : ascii) (s : string) : ascii :=
  match s with
  | "" => c
  | String c' s' => lastChar c' s'
  end.

(** A label: letters, digits and hyphens, at least one character, no
    hyphen at either end. *)
Definition isLabel (l : string) : bool :=
  match l with
  | "" => false
  | String c rest =>
      isAlnum c && AsciiText.all isLabelChar rest && isAlnum (lastChar c rest)
  end.

(** A top-level name: two letters or more. *)
Definition isTld (t : string) : bool :=
  (2 <=? String.length t)%nat && AsciiText.all isLetter t.

(** The labels, each followed by a dot, then the top-level name. *)
Definition dotted (labels : list string) (tld : string) : string :=
  concatenated (map (fun l => l +:+ ".") labels) +:+ tld.

(** * Properties of the resolver *)

Ltac async_unfold :=
  unfold mbind, Async_bind, Async.bind, Async.tryCatch, Async.await,
    mret, Async_ret, Async.ret in *.

Section ResolverFacts.
Context {W : Type} (dns : Resolver W).

(** The [try] block either returns a result without error or throws what
    the platform call rejected with; in both cases exactly one call was
    issued. *)
Lemma queryType_cases domain t env :
  (∃ r w', queryType dns domain t env
           = (Fulfilled r, mkEnv w' (issued env ++ [(methodOf t, domain)]))
           ∧ type r = t ∧ error r = None
           ∧ platformRejection dns domain t (world env) = None)
  ∨ (∃ err w', queryType dns domain t env
           = (Rejected err, mkEnv w' (issued env ++ [(methodOf t, domain)]))
           ∧ platformRejection dns domain t (world env) = Some err).
Proof.
  unfold queryType, platformRejection.
  destruct t; async_unfold;
    match goal with
    | |- context [?f dns domain (world env)] =>
        destruct (f dns domain (world env)) as [[answer|err] w']
    end; cbn; solve [left; eauto 10 | right; eauto 10].
Qed.

Lemma classifyError_settles {E} t err (env : Env W) :
  ∃ r, classifyError (E:=E) t err env = (Fulfilled r, env)
       ∧ type r = t ∧ records r = [].
Proof.
  unfold classifyError.
  destruct (codeIs err "ENODATA" || codeIs err "ENOTFOUND"); async_unfold; eauto.
Qed.

(** A per-type task issues exactly one platform call and settles with a
    value; the value carries the queried type and never has both records
    and an error. *)
Lemma resolveType_settles domain t env :
  ∃ r, (resolveType dns domain t env).1 = Fulfilled r
       ∧ type r = t
       ∧ exclusive r
       ∧ issued (resolveType dns domain t env).2
         = issued env ++ [(methodOf t, domain)].
Proof.
  unfold resolveType, Async.tryCatch.
  destruct (queryType_cases domain t env)
    as [(r & w' & -> & Ht & He & _) | (err & w' & -> & _)].
  - exists r. cbn. repeat split; auto.
    intros [e Hs]. congruence.
  - destruct (classifyError_settles (E:=option ErrnoException) t err
                (mkEnv w' (issued env ++ [(methodOf t, domain)])))
      as (r & -> & Ht & Hr).
    exists r. cbn. repeat split; auto. congruence.
Qed.
End ResolverFacts.

(** ** The classification of failures *)

Lemma codeIs_spec err c : codeIs err c = true ↔ code err = Some c.
Proof.
  unfold codeIs. destruct (code err) as [c'|]; [|done].
  rewrite String.eqb_eq. split; congruence.
Qed.

Lemma benign_spec err :
  codeIs err "ENODATA" || codeIs err "ENOTFOUND" = true ↔ benign err.
Proof. unfold benign. by rewrite orb_true_iff, !codeIs_spec. Qed.

Lemma orElse_failureText t err :
  JS.orElse (message err) ("Failed to resolve " +:+ typeName t +:+ " records")
  = failureText t err.
Proof.
  unfold JS.orElse, failureText. by destruct (message err) as [[|c m]|].
Qed.

(** What the per-type task makes of a rejected platform call. *)
Lemma resolveType_rejected {W} (dns : Resolver W) domain t env err :
  platformRejection dns domain t (world env) = Some err →
  (resolveType dns domain t env).1
  = Fulfilled
      (mkDnsResult t []
         (if codeIs err "ENODATA" || codeIs err "ENOTFOUND" then None
          else Some (failureText t err))).
Proof.
  intros Hrej. unfold resolveType, Async.tryCatch.
  destruct (queryType_cases dns domain t env)
    as [(r & w' & _ & _ & _ & Hn) | (err' & w' & -> & Hs)]; [congruence|].
  assert (err' = err) as -> by congruence.
  unfold classifyError. rewrite orElse_failureText.
  by destruct (codeIs err "ENODATA" || codeIs err "ENOTFOUND").
Qed.

(** The resolver never writes an empty error string, so on the results of
    [resolveDns] "absent or empty" is "absent". *)
Lemma resolveType_error_nonempty {W} (dns : Resolver W) domain t env r :
  (resolveType dns domain t env).1 = Fulfilled r → error r ≠ Some "".
Proof.
  destruct (queryType_cases dns domain t env)
    as [(r' & w' & Hq & _ & He & _) | (err & w' & _ & Hrej)].
  - unfold resolveType, Async.tryCatch. rewrite Hq. cbn.
    intros [= <-]. congruence.
  - rewrite (resolveType_rejected dns domain t env err Hrej).
    intros [= <-]. cbn.
    destruct (codeIs err "ENODATA" || codeIs err "ENOTFOUND"); [done|].
    unfold failureText.
    destruct (message err) as [[|c m]|]; [|done|]; by destruct t.
Qed.

(** ** [Promise.allSettled] *)

Section AllSettledFacts.
Context {E X : Type}.
Implicit Types (promises : list (Settled E X)) (schedule : list nat).
Implicit Types (slots : list (option (Settled E X))).

Lemma settleAt_length promises slots i :
  length (settleAt promises slots i) = length slots.
Proof.
  unfold settleAt. destruct (promises !! i); [apply length_insert | done].
Qed.

Lemma settleAt_lookup promises slots i j :
  length slots = length promises →
  settleAt promises slots i !! j
  = if decide (i = j)
    then match promises !! i with
         | Some p => Some (Some p)
         | None => slots !! j
         end
    else slots !! j.
Proof.
  intros Hlen. unfold settleAt. destruct (promises !! i) as [p|] eqn:Hp.
  - case_decide as Hij.
    + subst j. rewrite list_lookup_insert_eq.
      * done.
      * rewrite Hlen. by eapply lookup_lt_Some.
    + by rewrite list_lookup_insert_ne.
  - by case_decide.
Qed.

(** The slots after the settlements of [schedule]: the length is kept, a
    slot whose position was scheduled holds the promise of that position,
    any other slot is as before. *)
Lemma settle_fold promises schedule slots :
  length slots = length promises →
  let slots' := foldl (settleAt promises) slots schedule in
  length slots' = length promises
  ∧ ∀ j, slots' !! j
         = if decide (j ∈ schedule)
           then match promises !! j with
                | Some p => Some (Some p)
                | None => slots !! j
                end
           else slots !! j.
Proof.
  revert slots. induction schedule as [|i schedule IH]; intros slots Hlen; cbn.
  - split; [done|]. intros j. by rewrite decide_False by apply not_elem_of_nil.
  - destruct (IH (settleAt promises slots i)) as [Hl Hk].
    { by rewrite settleAt_length. }
    split; [done|]. intros j. rewrite Hk, settleAt_lookup by done.
    destruct (decide (i = j)) as [->|Hij].
    + rewrite (decide_True (P := j ∈ j :: schedule)) by left.
      case_decide; [|done]. destruct (promises !! j); done.
    + destruct (decide (j ∈ schedule)) as [Hin|Hin].
      * by rewrite (decide_True (P := j ∈ i :: schedule)) by (by right).
      * rewrite (decide_False (P := j ∈ i :: schedule)); [done|].
        rewrite elem_of_cons. intros [->|?]; done.
Qed.

Lemma settle_fold_init promises schedule j :
  foldl (settleAt promises) (replicate (length promises) None) schedule !! j
  = if decide (j ∈ schedule) then Some <$> promises !! j
    else if decide (j < length promises)%nat then Some None else None.
Proof.
  destruct (settle_fold promises schedule (replicate (length promises) None))
    as [_ ->]; [apply length_replicate|].
  destruct (decide (j < length promises)%nat) as [Hj|Hj].
  - rewrite lookup_replicate_2 by done.
    destruct (lookup_lt_is_Some_2 promises j Hj) as [p ->].
    by case_decide.
  - rewrite (lookup_ge_None_2 promises) by lia.
    rewrite (lookup_ge_None_2 (replicate _ _)) by (rewrite length_replicate; lia).
    by case_decide.
Qed.

(** The join is fulfilled exactly when every position was scheduled, and
    then with the settlements in the order of the promises, whatever the
    order of the schedule. *)
Lemma allSettled_complete promises schedule :
  (∀ j, (j < length promises)%nat → j ∈ schedule) →
  allSettled schedule promises = Some promises.
Proof.
  intros Hall. unfold allSettled.
  replace (foldl _ _ schedule) with (Some <$> promises).
  { by apply mapM_fmap_Some. }
  apply list_eq. intros j. rewrite settle_fold_init, list_lookup_fmap.
  destruct (decide (j < length promises)%nat) as [Hj|Hj].
  - by rewrite decide_True by auto.
  - rewrite (lookup_ge_None_2 promises) by lia. by case_decide.
Qed.

Lemma allSettled_Some promises schedule results :
  allSettled schedule promises = Some results → results = promises.
Proof.
  unfold allSettled. intros Hm%mapM_Some_1.
  apply list_eq. intros j.
  pose proof (settle_fold_init promises schedule j) as Hj.
  destruct (results !! j) as [r|] eqn:Hres.
  - destruct (Forall2_lookup_r _ _ _ j r Hm Hres) as (s & Hs & Hid).
    cbn in Hid. subst s. rewrite Hs in Hj.
    case_decide.
    + destruct (promises !! j); cbn in Hj; congruence.
    + case_decide; congruence.
  - destruct (promises !! j) as [p|] eqn:Hp; [|done].
    assert (j < length promises)%nat as Hlt by (by eapply lookup_lt_Some).
    destruct (foldl (settleAt promises) (replicate (length promises) None) schedule !! j)
      as [s|] eqn:Hs.
    + destruct (Forall2_lookup_l _ _ _ j s Hm Hs) as (r & Hr' & _). congruence.
    + case_decide; [done|]. by rewrite decide_True in Hj.
Qed.

Lemma allSettled_pending promises schedule j :
  (j < length promises)%nat → j ∉ schedule →
  allSettled schedule promises = None.
Proof.
  intros Hj Hn. unfold allSettled. apply mapM_None_2, Exists_exists.
  exists None. split; [|done]. apply list_elem_of_lookup. exists j.
  rewrite settle_fold_init. rewrite decide_False by done.
  by rewrite decide_True.
Qed.

Lemma schedule_covers (n : nat) schedule :
  schedule ≡ₚ seq 0 n → ∀ j, (j < n)%nat → j ∈ schedule.
Proof.
  intros Hp j Hj. rewrite Hp. apply elem_of_seq. lia.
Qed.
End AllSettledFacts.

(** ** The join of [resolveDns] *)

Section JoinFacts.
Context {W : Type} (dns : Resolver W).

(** Started one after the other, the per-type tasks all settle with a
    value of their own type, and the calls issued are one per requested
    type, in the order of the request. *)
Lemma startAll_resolveType domain types env :
  ∃ rs env',
    Async.startAll (map (λ t, resolveType dns domain t) types) env
    = (Fulfilled <$> rs, env')
    ∧ type <$> rs = types
    ∧ Forall (λ r, exclusive r ∧ error r ≠ Some "") rs
    ∧ issued env' = issued env ++ map (λ t, (methodOf t, domain)) types.
Proof.
  revert env. induction types as [|t types IH]; intros env; cbn.
  - exists [], env. by rewrite app_nil_r.
  - destruct (resolveType_settles dns domain t env) as (r & Hr & Ht & Hx & Hi).
    pose proof (resolveType_error_nonempty dns domain t env r Hr) as Hne.
    destruct (resolveType dns domain t env) as [p env1]. cbn in Hr, Hi. subst p.
    destruct (IH env1) as (rs & env' & -> & Hts & Hxs & His).
    exists (r :: rs), env'. cbn. repeat split.
    + by rewrite Ht, Hts.
    + by constructor.
    + by rewrite His, Hi, <- app_assoc.
Qed.

Lemma imap_settled_fulfilled types (rs : list DnsResult) :
  imap (settledToResult types) (Fulfilled <$> rs) = rs.
Proof.
  apply list_eq. intros i.
  rewrite list_lookup_imap, list_lookup_fmap. by destruct (rs !! i).
Qed.

(** The outcome of [resolveDns]: the calls and the final environment do
    not depend on the schedule; the join is fulfilled when every task
    completes, and whenever it is, with the values of the tasks in the
    order of the request.  These values never have both records and an
    error, and never an empty error string. *)
Lemma resolveDns_run domain types env :
  ∃ rs env',
    type <$> rs = types
    ∧ Forall (λ r, exclusive r ∧ error r ≠ Some "") rs
    ∧ issued env' = issued env ++ map (λ t, (methodOf t, domain)) types
    ∧ (types = [] → env' = env)
    ∧ ∀ schedule,
        (resolveDns dns schedule domain types env).2 = env'
        ∧ ((∀ j, (j < length types)%nat → j ∈ schedule) →
           (resolveDns dns schedule domain types env).1 = Some (Fulfilled rs))
        ∧ (∀ out, (resolveDns dns schedule domain types env).1 = Some out →
                  out = Fulfilled rs).
Proof.
  destruct (startAll_resolveType domain types env)
    as (rs & env' & Hs & Ht & Hx & Hi).
  exists rs, env'. split_and!; [done..| |].
  { intros ->. cbn in Hs. congruence. }
  intros sched. unfold resolveDns. rewrite Hs. cbn.
  assert (length (Fulfilled (E:=option ErrnoException) <$> rs) = length types) as Hlen.
  { by rewrite length_fmap, <- Ht, length_fmap. }
  split_and!; [done| |].
  - intros Hc. rewrite allSettled_complete by (by rewrite Hlen).
    cbn. by rewrite imap_settled_fulfilled.
  - intros out.
    destruct (allSettled sched (Fulfilled <$> rs)) as [results|] eqn:Ha; [|done].
    apply allSettled_Some in Ha. subst results. cbn.
    rewrite imap_settled_fulfilled. congruence.
Qed.
End JoinFacts.

(** ** Sorting by a numeric key *)

Section SortFacts.
Context {X : Type} (key : X → Z).
Local Abbreviation cmp := (λ a b : X, (key a - key b)%Z).

Lemma insert_perm x l : JS.insert cmp x l ≡ₚ x :: l.
Proof.
  induction l as [|y l IH]; cbn; [done|].
  destruct (cmp x y <=? 0)%Z; [done|]. by rewrite IH, Permutation_swap.
Qed.

Lemma sort_perm l : JS.sort cmp l ≡ₚ l.
Proof.
  induction l as [|x l IH]; cbn; [done|]. by rewrite insert_perm, IH.
Qed.

Lemma insert_sorted x l :
  StronglySorted (λ a b, (key a <= key b)%Z) l →
  StronglySorted (λ a b, (key a <= key b)%Z) (JS.insert cmp x l).
Proof.
  induction 1 as [|y l Hs IH Hy]; cbn.
  - by repeat constructor.
  - destruct (Z.leb_spec (key x - key y) 0) as [Hle|Hgt].
    + constructor; [by constructor|]. constructor; [lia|].
      eapply Forall_impl; [exact Hy|]. cbn. lia.
    + constructor; [done|].
      rewrite (insert_perm x l). constructor; [lia|done].
Qed.

Lemma sort_sorted l : StronglySorted (λ a b, (key a <= key b)%Z) (JS.sort cmp l).
Proof.
  induction l as [|x l IH]; cbn; [constructor|]. by apply insert_sorted.
Qed.

(** Stability: the answers of one key keep their relative order. *)
Lemma insert_stable k x l :
  filter (λ a, key a = k) (JS.insert cmp x l) = filter (λ a, key a = k) (x :: l).
Proof.
  induction l as [|y l IH]; cbn; [done|].
  destruct (Z.leb_spec (key x - key y) 0) as [Hle|Hgt]; [done|].
  rewrite filter_cons, IH, !filter_cons.
  repeat case_decide; try done; lia.
Qed.

Lemma sort_stable k l :
  filter (λ a, key a = k) (JS.sort cmp l) = filter (λ a, key a = k) l.
Proof.
  induction l as [|x l IH]; cbn; [done|].
  by rewrite insert_stable, !filter_cons, IH.
Qed.
End SortFacts.

(** ** Strings *)

#[local] Arguments String.append !_ _ / : simpl nomatch.

Lemma append_nil_r (s : string) : s +:+ "" = s.
Proof. induction s as [|c s IH]; simpl; [done|]. by rewrite IH. Qed.

Lemma append_assoc (s1 s2 s3 : string) : (s1 +:+ s2) +:+ s3 = s1 +:+ (s2 +:+ s3).
Proof. induction s1 as [|c s1 IH]; simpl; [done|]. by rewrite IH. Qed.

Lemma length_append (s1 s2 : string) :
  String.length (s1 +:+ s2) = (String.length s1 + String.length s2)%nat.
Proof. induction s1 as [|c s1 IH]; simpl; [done|]. by rewrite IH. Qed.

(** Joining with the empty separator puts the chunks one after the other,
    and adds no character. *)
Lemma join_empty_concatenated chunks : JS.join "" chunks = concatenated chunks.
Proof.
  unfold JS.join, concatenated.
  induction chunks as [|c chunks IH]; [done|].
  destruct chunks as [|c' chunks].
  - cbn [String.concat foldr]. symmetry. apply append_nil_r.
  - change (String.concat "" (c :: c' :: chunks))
      with (c +:+ "" +:+ String.concat "" (c' :: chunks)).
    rewrite IH. done.
Qed.

Lemma length_concatenated chunks :
  String.length (concatenated chunks) = sum_list (String.length <$> chunks).
Proof.
  induction chunks as [|c chunks IH]; [done|].
  cbn. rewrite length_append. unfold concatenated in IH. by rewrite IH.
Qed.

(** * The claims on the resolver *)

(** C1.  For every platform, domain and list of requested types, and for
    every order in which the per-type tasks complete, [resolveDns] returns
    a list with one entry per requested type, the entry at each position
    carrying the type requested at that position; the result is the same
    for every completion order.  One platform call is issued per requested
    type, so for the empty list the result is empty and no call is issued
    (the environment is unchanged). *)
Theorem resolveDns_positional {W} (dns : Resolver W) schedule domain types env :
  schedule ≡ₚ seq 0 (length types) →
  ∃ results,
    (resolveDns dns schedule domain types env).1 = Some (Fulfilled results)
    ∧ length results = length types
    ∧ (∀ i t, types !! i = Some t → type <$> results !! i = Some t)
    ∧ (∀ schedule', schedule' ≡ₚ seq 0 (length types) →
         resolveDns dns schedule' domain types env
         = resolveDns dns schedule domain types env)
    ∧ issued (resolveDns dns schedule domain types env).2
      = issued env ++ map (λ t, (methodOf t, domain)) types
    ∧ (types = [] →
         results = [] ∧ (resolveDns dns schedule domain types env).2 = env).
Proof.
  intros Hsched.
  destruct (resolveDns_run dns domain types env)
    as (rs & env' & Ht & _ & Hi & Hnil & Hrun).
  destruct (Hrun schedule) as (He & Hok & _).
  exists rs. split_and!.
  - apply Hok. by apply schedule_covers.
  - by rewrite <- Ht, length_fmap.
  - intros i t Hl. by rewrite <- list_lookup_fmap, Ht.
  - intros schedule' Hsched'. destruct (Hrun schedule') as (He' & Hok' & _).
    apply injective_projections.
    + rewrite Hok, Hok'; [done| |]; by apply schedule_covers.
    + congruence.
  - by rewrite He.
  - intros ->. split; [|rewrite He; by apply Hnil].
    by destruct rs.
Qed.

Lemma resolveDns_positional_witness :
  ∃ results,
    (resolveDns scenarioDns [2; 0; 1]%nat "example.com" [NS; A; TXT] scenarioEnv).1
    = Some (Fulfilled results)
    ∧ length results = 3%nat.
Proof.
  destruct (resolveDns_positional scenarioDns [2; 0; 1]%nat "example.com"
              [NS; A; TXT] scenarioEnv) as (results & Hr & Hl & _).
  - exact (Permutation_cons_append [0; 1]%nat 2%nat).
  - exists results. split; [exact Hr | exact Hl].
Defined.

(** C2.  Every result [resolveDns] returns, and every result the join
    makes of a rejected task, satisfies the exclusivity invariant: records
    and error are never both populated. *)
Theorem resolveDns_exclusive {W} (dns : Resolver W) schedule domain types env
    results :
  (resolveDns dns schedule domain types env).1 = Some (Fulfilled results) →
  Forall exclusive results
  ∧ ∀ index reason, exclusive (settledToResult types index (Rejected reason)).
Proof.
  intros Hres.
  destruct (resolveDns_run dns domain types env)
    as (rs & env' & _ & Hx & _ & _ & Hrun).
  destruct (Hrun schedule) as (_ & _ & Hinv).
  apply Hinv in Hres. injection Hres as ->. split.
  - eapply Forall_impl; [exact Hx|]. by intros r [Hr _].
  - intros index reason. split; cbn; [done|done].
Qed.

Lemma resolveDns_exclusive_witness :
  Forall exclusive
    [ mkDnsResult A ["93.184.216.34"] None;
      mkDnsResult AAAA [] None;
      mkDnsResult NS [] (Some "Connection refused") ].
Proof.
  apply (resolveDns_exclusive scenarioDns [1; 2; 0]%nat "example.com"
           [A; AAAA; NS] scenarioEnv).
  vm_compute. reflexivity.
Defined.

(** C3.  When the platform call for a type rejects, the result has no
    records; its error is absent if the rejection is a benign absence
    (ENODATA or ENOTFOUND), and otherwise it is the message of the
    rejection, or "Failed to resolve <TYPE> records" when the message is
    missing or empty.  The join hands this result on as it is. *)
Theorem resolveType_classifies {W} (dns : Resolver W) domain t env err :
  platformRejection dns domain t (world env) = Some err →
  ∃ r,
    (resolveType dns domain t env).1 = Fulfilled r
    ∧ (resolveDns dns [0%nat] domain [t] env).1 = Some (Fulfilled [r])
    ∧ type r = t
    ∧ records r = []
    ∧ (benign err → error r = None)
    ∧ (¬ benign err →
       error r = Some (match message err with
                       | Some m => if decide (m = "") then
                                     "Failed to resolve " +:+ typeName t +:+ " records"
                                   else m
                       | None => "Failed to resolve " +:+ typeName t +:+ " records"
                       end)).
Proof.
  intros Hrej. pose proof (resolveType_rejected dns domain t env err Hrej) as Hr.
  eexists. split; [exact Hr|]. split_and!.
  - unfold resolveDns. cbn. destruct (resolveType dns domain t env) as [p env1].
    cbn in Hr. subst p. reflexivity.
  - done.
  - done.
  - intros Hb%benign_spec. cbn. by rewrite Hb.
  - intros Hb. cbn. rewrite <- benign_spec in Hb.
    apply not_true_is_false in Hb. rewrite Hb. f_equal.
    unfold failureText. destruct (message err) as [[|c m]|]; done.
Qed.

Lemma resolveType_classifies_witness :
  ∃ r,
    (resolveType scenarioDns "example.com" SOA scenarioEnv).1 = Fulfilled r
    ∧ records r = []
    ∧ error r = Some "Failed to resolve SOA records".
Proof.
  destruct (resolveType_classifies scenarioDns "example.com" SOA scenarioEnv
              (mkErrno None (Some "")) eq_refl)
    as (r & Hr & _ & _ & Hrec & _ & Herr).
  exists r. split; [exact Hr|]. split; [exact Hrec|].
  apply Herr. intros [H|H]; discriminate H.
Defined.

(** ** Decimal numerals *)

Lemma digitValue_char d : (d < 10)%N → digitValue (pretty_N_char d) = Some d.
Proof.
  intros Hd.
  assert (d = 0 ∨ d = 1 ∨ d = 2 ∨ d = 3 ∨ d = 4 ∨ d = 5 ∨ d = 6 ∨ d = 7
          ∨ d = 8 ∨ d = 9)%N as Hcases by lia.
  repeat (destruct Hcases as [-> | Hcases]; [reflexivity|]). by subst.
Qed.

(** The digits written for [x] stand for [x]. *)
Lemma pretty_N_go_value x : ∀ s acc,
  ∃ k, digitsValue acc (pretty_N_go x s) = digitsValue (acc * 10 ^ k + x) s.
Proof.
  induction (N.lt_wf_0 x) as [x _ IH]. intros s acc.
  destruct (decide (x = 0)%N) as [->|Hx].
  - exists 0%N. rewrite pretty_N_go_0. f_equal. rewrite N.pow_0_r. lia.
  - rewrite pretty_N_go_step by lia.
    destruct (IH (x `div` 10)%N ltac:(apply N.div_lt; lia)
                (String (pretty_N_char (x `mod` 10)) s) acc) as [k ->].
    exists (N.succ k). cbn [digitsValue].
    rewrite digitValue_char by (apply N.mod_lt; lia).
    f_equal. rewrite N.pow_succ_r', (N.mul_comm 10 (10 ^ k)), N.mul_assoc.
    generalize (acc * 10 ^ k)%N. intros a.
    pose proof (N.div_mod x 10 ltac:(lia)).
    lia.
Qed.

(** The first digit written for a positive number is not a zero. *)
Lemma pretty_N_go_head x : ∀ s,
  (0 < x)%N →
  ∃ c rest,
    pretty_N_go x s = String c rest
    ∧ Ascii.eqb c "0" = false ∧ Ascii.eqb c "-" = false.
Proof.
  induction (N.lt_wf_0 x) as [x _ IH]. intros s Hx.
  rewrite pretty_N_go_step by done.
  destruct (decide (x `div` 10 = 0)%N) as [Hq|Hq].
  - rewrite Hq, pretty_N_go_0. eexists _, _. split; [done|].
    assert (x < 10)%N as Hlt by (apply N.div_small_iff in Hq; lia).
    rewrite N.mod_small by done.
    assert (x = 1 ∨ x = 2 ∨ x = 3 ∨ x = 4 ∨ x = 5 ∨ x = 6 ∨ x = 7
            ∨ x = 8 ∨ x = 9)%N as Hcases by lia.
    repeat (destruct Hcases as [-> | Hcases]; [done|]). by subst.
  - assert (0 < x `div` 10)%N as Hpos by (apply N.neq_0_lt_0; exact Hq).
    apply IH; [|exact Hpos]. apply N.div_lt; [exact Hx|done].
Qed.

(** What a number is written as in a template literal is its decimal
    numeral. *)
Lemma numeralValue_numberToString n :
  numeralValue (JS.numberToString n) = Some n.
Proof.
  assert (∀ p, ∃ c rest,
            pretty (N.pos p) = String c rest
            ∧ Ascii.eqb c "0" = false ∧ Ascii.eqb c "-" = false
            ∧ naturalValue (String c rest) = Some (N.pos p)) as Hpos.
  { intros p. unfold pretty, pretty_N. rewrite decide_False by done.
    destruct (pretty_N_go_head (N.pos p) "" ltac:(done))
      as (c & rest & Heq & H0 & Hm).
    exists c, rest. split_and!; [done..|].
    unfold naturalValue. rewrite H0, <- Heq.
    destruct (pretty_N_go_value (N.pos p) "" 0) as [k ->].
    cbn [digitsValue]. reflexivity. }
  unfold JS.numberToString, pretty, pretty_Z. destruct n as [|p|p]; [done|..].
  - destruct (Hpos p) as (c & rest & Heq & H0 & Hm & Hv).
    change (pretty p) with (pretty (N.pos p)). rewrite Heq.
    unfold numeralValue. cbn [String.eqb]. rewrite H0, Hm. cbn [andb].
    by rewrite Hv.
  - destruct (Hpos p) as (c & rest & Heq & H0 & Hm & Hv).
    change ("-" +:+ pretty p) with (String "-" (pretty (N.pos p))).
    unfold numeralValue. cbn [String.eqb]. rewrite Heq.
    change (Ascii.eqb "-" "0") with false.
    change (Ascii.eqb "-" "-") with true. cbn [andb].
    by rewrite Hv.
Qed.

Lemma digitValue_spec c d :
  digitValue c = Some d →
  (d < 10)%N ∧ c = pretty_N_char d ∧ (Ascii.eqb c "0" = false → d ≠ 0%N).
Proof.
  destruct c as [[] [] [] [] [] [] [] []]; cbn; try discriminate;
    intros [= <-]; repeat split; done.
Qed.

Lemma digitsValue_ge ds : ∀ acc v,
  digitsValue acc ds = Some v → (acc ≤ v)%N.
Proof.
  induction ds as [|c ds IH]; intros acc v; cbn [digitsValue].
  - intros [= <-]. lia.
  - destruct (digitValue c) as [d|]; [|done]. intros Hv%IH. lia.
Qed.

(** Digits that stand for [v] are the digits written for [v]. *)
Lemma digitsValue_written ds : ∀ acc v s,
  digitsValue acc ds = Some v →
  (acc ≠ 0%N
   ∨ match ds with
     | "" => True
     | String c _ => Ascii.eqb c "0" = false
     end) →
  pretty_N_go v s = pretty_N_go acc (ds +:+ s).
Proof.
  induction ds as [|c ds IH]; intros acc v s; cbn [digitsValue].
  - by intros [= <-] _.
  - destruct (digitValue c) as [d|] eqn:Hd; [|done].
    apply digitValue_spec in Hd as (Hlt & -> & Hnz).
    intros Hv Hlead.
    assert (10 * acc + d ≠ 0)%N as Hacc.
    { destruct Hlead as [?|Hc]; [lia|]. specialize (Hnz Hc). lia. }
    rewrite (IH _ _ s Hv) by (by left).
    rewrite (pretty_N_go_step (10 * acc + d)) by lia.
    replace ((10 * acc + d) `div` 10)%N with acc
      by (apply (N.div_unique _ 10 acc d); [done|lia]).
    replace ((10 * acc + d) `mod` 10)%N with d
      by (apply (N.mod_unique _ 10 acc d); [done|lia]).
    done.
Qed.

Lemma naturalValue_written s m :
  naturalValue s = Some m → (0 < m)%N ∧ s = pretty m.
Proof.
  unfold naturalValue. destruct s as [|c s]; [done|].
  destruct (Ascii.eqb c "0") eqn:Hc; [done|]. intros Hv.
  assert (0 < m)%N as Hm.
  { cbn [digitsValue] in Hv. destruct (digitValue c) as [d|] eqn:Hd; [|done].
    apply digitValue_spec in Hd as (_ & _ & Hnz). specialize (Hnz Hc).
    apply digitsValue_ge in Hv. lia. }
  split; [done|].
  pose proof (digitsValue_written _ _ _ "" Hv (or_intror Hc)) as Hw.
  rewrite pretty_N_go_0, append_nil_r in Hw.
  unfold pretty, pretty_N. rewrite decide_False by lia. done.
Qed.

(** A number has one decimal numeral only. *)
Lemma numeralValue_written s n :
  numeralValue s = Some n → s = JS.numberToString n.
Proof.
  unfold numeralValue. destruct (String.eqb_spec s "0") as [->|Hne].
  { by intros [= <-]. }
  destruct s as [|c s]; [done|].
  destruct (Ascii.eqb_spec c "-") as [->|Hc].
  - destruct (naturalValue s) as [m|] eqn:Hm; [|done].
    apply naturalValue_written in Hm as [Hpos ->]. intros [= <-].
    destruct m as [|q]; [lia|]. done.
  - destruct (naturalValue (String c s)) as [m|] eqn:Hm; [|done].
    apply naturalValue_written in Hm as [Hpos ->]. intros [= <-].
    destruct m as [|q]; [lia|]. done.
Qed.

(** C4.  When the platform answers the MX query, the records of the result
    are the answers sorted by ascending priority, answers of equal priority
    in their original order, each rendered "<priority> <exchange>", the
    priority written as its decimal numeral (the one text that stands for
    it), except that priority 0 with exchange "." is rendered
    "0 . (null MX — domain does not accept mail)". *)
Theorem resolveType_mx_sorted {W} (dns : Resolver W) domain env answers w' :
  resolveMx dns domain (world env) = (Resolves answers, w') →
  ∃ sorted,
    (resolveType dns domain MX env).1
    = Fulfilled (mkDnsResult MX (map renderMx sorted) None)
    ∧ sorted ≡ₚ answers
    ∧ StronglySorted (λ a b, (priority a <= priority b)%Z) sorted
    ∧ (∀ p, filter (λ a, priority a = p) sorted
            = filter (λ a, priority a = p) answers)
    ∧ (∀ r, ∃ numeral,
         numeralValue numeral = Some (priority r)
         ∧ (∀ text, numeralValue text = Some (priority r) → text = numeral)
         ∧ renderMx r
           = if decide (priority r = 0%Z ∧ exchange r = ".")
             then "0 . (null MX — domain does not accept mail)"
             else numeral +:+ " " +:+ exchange r).
Proof.
  intros Hmx. exists (JS.sort (λ a b, priority a - priority b)%Z answers).
  split_and!.
  - unfold resolveType, queryType. async_unfold. by rewrite Hmx.
  - apply (sort_perm priority).
  - apply (sort_sorted priority).
  - intros p. apply (sort_stable priority).
  - intros r. exists (JS.numberToString (priority r)).
    split; [apply numeralValue_numberToString|].
    split; [intros text; apply numeralValue_written|]. unfold renderMx.
    destruct (Z.eqb_spec (priority r) 0) as [Hp|Hp];
      destruct (String.eqb_spec (exchange r) ".") as [Hx|Hx]; cbn [andb].
    + rewrite decide_True by done. by rewrite Hp.
    + rewrite decide_False by (by intros [_ ?]). done.
    + rewrite decide_False by (by intros [? _]). done.
    + rewrite decide_False by (by intros [? _]). done.
Qed.

Lemma resolveType_mx_sorted_witness :
  ∃ sorted,
    (resolveType scenarioDns "example.com" MX scenarioEnv).1
    = Fulfilled (mkDnsResult MX (map renderMx sorted) None)
    ∧ sorted ≡ₚ [ mkMx 20 "mx2.example.com"; mkMx 10 "mx1.example.com";
                  mkMx 0 "."; mkMx 10 "mx1b.example.com" ]
    ∧ map renderMx sorted
      = [ "0 . (null MX — domain does not accept mail)";
          "10 mx1.example.com"; "10 mx1b.example.com"; "20 mx2.example.com" ].
Proof.
  destruct (resolveType_mx_sorted scenarioDns "example.com" scenarioEnv
              [ mkMx 20 "mx2.example.com"; mkMx 10 "mx1.example.com";
                mkMx 0 "."; mkMx 10 "mx1b.example.com" ] 1%nat eq_refl)
    as (sorted & Hr & Hp & _).
  exists sorted. split; [exact Hr|]. split; [exact Hp|].
  assert ((resolveType scenarioDns "example.com" MX scenarioEnv).1
          = Fulfilled
              (mkDnsResult MX
                 [ "0 . (null MX — domain does not accept mail)";
                   "10 mx1.example.com"; "10 mx1b.example.com";
                   "20 mx2.example.com" ] None)) as Hrun by reflexivity.
  rewrite Hrun in Hr. by injection Hr.
Defined.

Example mx_scenario :
  (resolveType scenarioDns "example.com" MX scenarioEnv).1
  = Fulfilled
      (mkDnsResult MX
         [ "0 . (null MX — domain does not accept mail)";
           "10 mx1.example.com"; "10 mx1b.example.com"; "20 mx2.example.com" ]
         None).
Proof. reflexivity. Qed.

(** The SOA answer of the test suite gives the seven labelled lines. *)
Example soa_scenario :
  renderSoa (mkSoa "ns1.example.com" "admin.example.com"
               2024010101 3600 900 604800 86400)
  = [ "Primary NS: ns1.example.com"; "Hostmaster: admin.example.com";
      "Serial: 2024010101"; "Refresh: 3600s"; "Retry: 900s";
      "Expire: 604800s"; "Min TTL: 86400s" ].
Proof. reflexivity. Qed.

(** The records of an answered CAA query: one rendering per answer. *)
Lemma caa_records_rendered {W} (dns : Resolver W) domain env answers w' :
  resolveCaa dns domain (world env) = (Resolves answers, w') →
  (resolveType dns domain CAA env).1
  = Fulfilled (mkDnsResult CAA (map renderCaa answers) None).
Proof.
  intros Hcaa. unfold resolveType, queryType. async_unfold. by rewrite Hcaa.
Qed.

(** C7, as the code has it.  When the platform answers the CAA query,
    every answer is rendered "<flags> <tag> <value>": flags is "128" when
    the critical field of the answer, its flags octet, is not zero and "0"
    when it is zero, which for the octets 0 and 128 is the critical bit;
    tag and value are those of the first populated property among issue,
    issuewild and iodef, in this order. *)
Theorem caa_rendering {W} (dns : Resolver W) domain env answers w' :
  resolveCaa dns domain (world env) = (Resolves answers, w') →
  (resolveType dns domain CAA env).1
  = Fulfilled (mkDnsResult CAA (map renderCaa answers) None)
  ∧ ∀ r, ∃ flags tag value,
      renderCaa r = flags +:+ " " +:+ tag +:+ " " +:+ value
      ∧ (critical r ≠ 0%Z → flags = "128")
      ∧ (critical r = 0%Z → flags = "0")
      ∧ (critical r = 0%Z ∨ critical r = 128%Z →
         (flags = "128" ↔ Z.testbit (critical r) 7 = true))
      ∧ (∀ v, issue r = Some v → tag = "issue" ∧ value = v)
      ∧ (∀ v, issue r = None → issuewild r = Some v →
              tag = "issuewild" ∧ value = v)
      ∧ (∀ v, issue r = None → issuewild r = None → iodef r = Some v →
              tag = "iodef" ∧ value = v).
Proof.
  intros Hcaa. split.
  - by eapply caa_records_rendered.
  - intros r. unfold renderCaa, JS.truthyNum, JS.nullish.
    do 3 eexists. split; [reflexivity|]. split_and!.
    + intros Hc. by destruct (Z.eqb_spec (critical r) 0).
    + intros ->. done.
    + intros [-> | ->]; cbn; split; done.
    + intros v ->. done.
    + intros v -> ->. done.
    + intros v -> -> ->. done.
Qed.

Lemma caa_rendering_witness :
  (resolveType scenarioDns "example.com" CAA scenarioEnv).1
  = Fulfilled
      (mkDnsResult CAA
         [ "128 issue letsencrypt.org";
           "0 issuewild letsencrypt.org";
           "0 iodef mailto:admin@example.com";
           "0 iodef unknown" ]
         None).
Proof.
  exact (proj1 (caa_rendering scenarioDns "example.com" scenarioEnv
                  [ mkCaa 128 (Some "letsencrypt.org") None None;
                    mkCaa 0 None (Some "letsencrypt.org") None;
                    mkCaa 0 None None (Some "mailto:admin@example.com");
                    mkCaa 0 None None None ] 1%nat eq_refl)).
Defined.

(** The claim of C7 read with the critical bit as bit 7 of the flags octet
    fails on an answer whose octet is 1: the critical bit is clear, and the
    flags are rendered "128". *)
Lemma caa_rendering_counterexample :
  Z.testbit (critical (mkCaa 1 (Some "ca.example") None None)) 7 = false
  ∧ (resolveType reservedFlagDns "example.com" CAA scenarioEnv).1
    = Fulfilled (mkDnsResult CAA ["128 issue ca.example"] None)
  ∧ ¬ (∀ r, ∃ tag value,
         renderCaa r
         = (if Z.testbit (critical r) 7 then "128" else "0")
           +:+ " " +:+ tag +:+ " " +:+ value).
Proof.
  split_and!.
  - reflexivity.
  - reflexivity.
  - intros Hclaim.
    destruct (Hclaim (mkCaa 1 (Some "ca.example") None None))
      as (tag & value & Hr).
    discriminate Hr.
Qed.

(** C8.  When the platform answers the TXT query, the result has one record
    per answer, in the order of the answers, and each record is the chunks
    of its answer put one after the other with nothing in between (its
    length is the sum of the lengths of the chunks). *)
Theorem resolveType_txt {W} (dns : Resolver W) domain env answers w' :
  resolveTxt dns domain (world env) = (Resolves answers, w') →
  ∃ recs,
    (resolveType dns domain TXT env).1 = Fulfilled (mkDnsResult TXT recs None)
    ∧ length recs = length answers
    ∧ ∀ i chunks, answers !! i = Some chunks →
        recs !! i = Some (concatenated chunks)
        ∧ String.length (concatenated chunks)
          = sum_list (String.length <$> chunks).
Proof.
  intros Htxt. exists (map (λ r, JS.join "" r) answers). split_and!.
  - unfold resolveType, queryType. async_unfold. by rewrite Htxt.
  - apply length_map.
  - intros i chunks Hi. split; [|apply length_concatenated].
    change (map ?f answers) with (f <$> answers).
    by rewrite list_lookup_fmap, Hi, <- join_empty_concatenated.
Qed.

Lemma resolveType_txt_witness :
  ∃ recs,
    (resolveType scenarioDns "example.com" TXT scenarioEnv).1
    = Fulfilled (mkDnsResult TXT recs None)
    ∧ recs !! 0%nat = Some "v=spf1 include:_spf.example.com ~all".
Proof.
  destruct (resolveType_txt scenarioDns "example.com" scenarioEnv
              [ ["v=spf1 include:_spf.example.com"; " ~all"];
                ["google-site-verification=abc123"] ] 1%nat eq_refl)
    as (recs & Hr & _ & Hi).
  exists recs. split; [exact Hr|].
  exact (proj1 (Hi 0%nat _ eq_refl)).
Defined.

(** C9.  [resolveDns] never rejects.  Every per-type task settles with a
    value, whatever the platform call does; a rejected task, if there were
    one, is turned by the join into a result with no records and an error
    for the type requested at its position; and once every task has
    completed, in whatever order, the caller receives a fulfilled list with
    one entry per requested type. *)
Theorem resolveDns_never_rejects {W} (dns : Resolver W) schedule domain types
    env :
  schedule ≡ₚ seq 0 (length types) →
  (∀ t env1, ∃ r, (resolveType dns domain t env1).1 = Fulfilled r)
  ∧ (∀ settled i reason t,
       settled !! i = Some (Rejected reason) → types !! i = Some t →
       imap (settledToResult types) settled !! i
       = Some (mkDnsResult t []
                 (Some (match reason with
                        | Some (mkErrno _ (Some m)) => m
                        | _ => "Unknown error"
                        end))))
  ∧ (∀ schedule' out,
       (resolveDns dns schedule' domain types env).1 = Some out →
       ∃ results, out = Fulfilled results)
  ∧ ∃ results,
      (resolveDns dns schedule domain types env).1 = Some (Fulfilled results)
      ∧ length results = length types.
Proof.
  intros Hsched. split_and!.
  - intros t env1.
    destruct (resolveType_settles dns domain t env1) as (r & Hr & _). eauto.
  - intros settled i reason t Hs Ht.
    rewrite list_lookup_imap, Hs. cbn.
    rewrite (list_lookup_total_correct _ _ _ Ht).
    by destruct reason as [[c [m|]]|].
  - intros schedule' out Hout.
    destruct (resolveDns_run dns domain types env) as (rs & env' & _ & _ & _ & _ & Hrun).
    destruct (Hrun schedule') as (_ & _ & Hinv). eauto.
  - destruct (resolveDns_run dns domain types env)
      as (rs & env' & Ht & _ & _ & _ & Hrun).
    destruct (Hrun schedule) as (_ & Hok & _).
    exists rs. split.
    + apply Hok. by apply schedule_covers.
    + by rewrite <- Ht, length_fmap.
Qed.

Lemma resolveDns_never_rejects_witness :
  ∃ results,
    (resolveDns scenarioDns [1; 0]%nat "example.com" [NS; SOA] scenarioEnv).1
    = Some (Fulfilled results)
    ∧ length results = 2%nat.
Proof.
  exact (proj2 (proj2 (proj2
    (resolveDns_never_rejects scenarioDns [1; 0]%nat "example.com" [NS; SOA]
       scenarioEnv (Permutation_cons_append [0%nat] 1%nat))))).
Defined.

(** C10.  A CAA answer with none of issue, issuewild and iodef populated is
    still rendered: "<flags> iodef unknown".  The result of the query has
    one record per answer, such answers included. *)
Theorem caa_unpopulated_default {W} (dns : Resolver W) domain env answers
    w' i r :
  resolveCaa dns domain (world env) = (Resolves answers, w') →
  answers !! i = Some r →
  issue r = None → issuewild r = None → iodef r = None →
  ∃ recs,
    (resolveType dns domain CAA env).1 = Fulfilled (mkDnsResult CAA recs None)
    ∧ length recs = length answers
    ∧ recs !! i
      = Some ((if decide (critical r = 0%Z) then "0" else "128")
              +:+ " iodef unknown").
Proof.
  intros Hcaa Hi H1 H2 H3.
  pose proof (caa_records_rendered dns domain env answers w' Hcaa) as Hr.
  exists (map renderCaa answers). split_and!; [done|apply length_map|].
  change (map renderCaa answers) with (renderCaa <$> answers).
  rewrite list_lookup_fmap, Hi. cbn. f_equal.
  unfold renderCaa, JS.truthyNum. rewrite H1, H2, H3. cbn.
  destruct (Z.eqb_spec (critical r) 0).
  - rewrite decide_True by done. done.
  - rewrite decide_False by done. done.
Qed.

Lemma caa_unpopulated_default_witness :
  ∃ recs,
    (resolveType scenarioDns "example.com" CAA scenarioEnv).1
    = Fulfilled (mkDnsResult CAA recs None)
    ∧ length recs = 4%nat
    ∧ recs !! 3%nat = Some "0 iodef unknown".
Proof.
  exact (caa_unpopulated_default scenarioDns "example.com" scenarioEnv
           _ 1%nat 3%nat (mkCaa 0 None None None)
           eq_refl eq_refl eq_refl eq_refl eq_refl).
Defined.

(** * The table renderer *)

Section TableFacts.
Context (chalk : list Style → string → string).
Context (tableToString : TableOptions → list (list string) → string).

Local Abbreviation step := (tableStep chalk tableToString).
Local Abbreviation emit := (emitted chalk tableToString).

(** The test of the loop for "nothing to show". *)
Lemma contentless_spec r :
  (length (records r) =? 0)%nat && negb (JS.truthyOpt (error r)) = true
  ↔ contentless r.
Proof.
  unfold contentless, JS.truthyOpt, JS.truthy.
  rewrite andb_true_iff, Nat.eqb_eq, length_zero_iff_nil.
  apply and_iff_compat_l.
  destruct (error r) as [e|]; cbn; [|intuition].
  rewrite negb_involutive, String.eqb_eq. intuition congruence.
Qed.


Lemma emitted_nil short r :
  emit short r = [] ↔ short = true ∧ contentless r.
Proof.
  rewrite <- contentless_spec. unfold emitted, tableStep.
  destruct short, (length (records r) =? 0)%nat, (JS.truthyOpt (error r));
    cbn [andb negb lines];
    rewrite ?drop_app_length, ?drop_all; intuition congruence.
Qed.




(** On results whose error, when there is one, is not the empty string
    (such are all the results of the resolver), "absent or empty" is
    "absent": the omitted blocks are those of the results with no records
    and no error property. *)
Lemma emitted_nil_nonempty_error short r :
  error r ≠ Some "" →
  emit short r = [] ↔ short = true ∧ records r = [] ∧ error r = None.
Proof.
  intros Hne. rewrite emitted_nil. unfold contentless. intuition.
Qed.
End TableFacts.


(** On the results of [resolveDns] the blocks omitted in compact mode are
    exactly those of the results with no records and no error property. *)
Lemma resolved_blocks_omitted {W} (dns : Resolver W) schedule domain types
    env results chalk tableToString short :
  (resolveDns dns schedule domain types env).1 = Some (Fulfilled results) →
  Forall (λ r, emitted chalk tableToString short r = []
               ↔ short = true ∧ records r = [] ∧ error r = None) results.
Proof.
  intros Hres.
  destruct (resolveDns_run dns domain types env)
    as (rs & env' & _ & Hx & _ & _ & Hrun).
  destruct (Hrun schedule) as (_ & _ & Hinv).
  apply Hinv in Hres. injection Hres as ->.
  eapply Forall_impl; [exact Hx|]. intros r [_ Hne].
  by apply emitted_nil_nonempty_error.
Qed.

(** * JSON: parsing what [JSON.stringify] wrote *)

(** Induction on JSON values, with the property available for the items
    of an array and the values of the members of an object. *)
Lemma json_induction (P : json → Prop) :
  P JNull → (∀ b, P (JBool b)) → (∀ s, P (JString s)) →
  (∀ items, Forall P items → P (JArray items)) →
  (∀ members, Forall (λ m, P m.2) members → P (JObject members)) →
  ∀ v, P v.
Proof.
  intros Hnull Hbool Hstr Harr Hobj.
  fix IH 1. intros [| b | s | items | members].
  - exact Hnull.
  - apply Hbool.
  - apply Hstr.
  - apply Harr. induction items as [|item items IHitems]; constructor.
    + apply IH.
    + exact IHitems.
  - apply Hobj. induction members as [|[k v] members IHm]; constructor.
    + apply IH.
    + exact IHm.
Qed.

(** ** String literals *)

(** Reading back one quoted character. *)
Lemma parseChars_quoteChar c tl :
  JSON.parseChars (JSON.quoteChar c +:+ tl)
  = r ← JSON.parseChars tl; Some (String c r.1, r.2).
Proof.
  destruct c as [[] [] [] [] [] [] [] []]; reflexivity.
Qed.

Lemma parseChars_quoteChars s rest :
  JSON.parseChars (JSON.quoteChars s +:+ String JSON.dquote rest) = Some (s, rest).
Proof.
  induction s as [|c s IH]; [reflexivity|].
  cbn [JSON.quoteChars]. rewrite append_assoc, parseChars_quoteChar, IH.
  reflexivity.
Qed.

Lemma quote_append s rest :
  JSON.quote s +:+ rest
  = String JSON.dquote (JSON.quoteChars s +:+ String JSON.dquote rest).
Proof. unfold JSON.quote. simpl. by rewrite append_assoc. Qed.

(** ** White space *)

Lemma skipWs_newline s : JSON.skipWs (JSON.newline +:+ s) = JSON.skipWs s.
Proof. reflexivity. Qed.

Lemma skipWs_indent n s : JSON.skipWs (JSON.indentOf n +:+ s) = JSON.skipWs s.
Proof.
  induction n as [|n IH]; [reflexivity|].
  unfold JSON.indentOf in *. cbn [Str.repeat]. rewrite append_assoc. exact IH.
Qed.

Lemma skipWs_head c s : JSON.isWs c = false → JSON.skipWs (String c s) = String c s.
Proof. intros H. cbn. by rewrite H. Qed.

Lemma skipWs_idemp s : JSON.skipWs (JSON.skipWs s) = JSON.skipWs s.
Proof.
  induction s as [|c s IH]; [reflexivity|].
  cbn. destruct (JSON.isWs c) eqn:Hc; [exact IH|]. cbn. by rewrite Hc.
Qed.

(** A value may be preceded by white space. *)
Lemma parseValue_skipWs fuel s :
  JSON.parseValue fuel (JSON.skipWs s) = JSON.parseValue fuel s.
Proof. destruct fuel; [reflexivity|]. cbn. by rewrite skipWs_idemp. Qed.

Lemma parseMembers_skipWs parseItem fuel s :
  JSON.parseMembers parseItem fuel (JSON.skipWs s)
  = JSON.parseMembers parseItem fuel s.
Proof. destruct fuel; [reflexivity|]. cbn. by rewrite skipWs_idemp. Qed.

Lemma serialize_head depth v :
  ∃ c s, JSON.serialize depth v = String c s ∧ opensValue c.
Proof.
  destruct v as [| [] | s | [|item items] | [|m members]];
    cbn; eexists _, _; (split; [reflexivity|done]).
Qed.


(** ** Arrays *)

Lemma parseElements_eq parseItem n s :
  JSON.parseElements parseItem (S n) s
  = r ← parseItem s;
    match JSON.skipWs r.2 with
    | String c rest =>
        if (N_of_ascii c =? 44)%N then
          rs ← JSON.parseElements parseItem n rest;
          Some (r.1 :: rs.1, rs.2)
        else if (N_of_ascii c =? 93)%N then Some ([r.1], rest)
        else None
    | "" => None
    end.
Proof. reflexivity. Qed.

Lemma join_cons sep x y l :
  JS.join sep (x :: y :: l) = x +:+ sep +:+ JS.join sep (y :: l).
Proof. reflexivity. Qed.

(** The items of an array, each read back by [parseValue f], are read
    back by [parseElements] up to the closing bracket. *)
Lemma parseElements_serialized f depth items rest :
  items ≠ [] →
  Forall (readsBack (S depth)) items →
  Forall (λ v, jsonSize v ≤ f)%nat items →
  ∀ n, (length items ≤ n)%nat →
    JSON.parseElements (JSON.parseValue f) n
      (JSON.newline +:+ JSON.indentOf (S depth)
       +:+ JS.join (separatorAt (S depth)) (map (JSON.serialize (S depth)) items)
       +:+ JSON.newline +:+ JSON.indentOf depth +:+ "]" +:+ rest)
    = Some (items, rest).
Proof.
  intros Hne Hread Hsize.
  induction items as [|x items IH]; [done|]. clear Hne.
  intros [|n] Hn; [cbn in Hn; lia|].
  apply Forall_cons in Hread as [Hx Hread].
  apply Forall_cons in Hsize as [Hsx Hsize].
  rewrite parseElements_eq.
  rewrite <- parseValue_skipWs, skipWs_newline, skipWs_indent, parseValue_skipWs.
  destruct items as [|y items].
  - cbn [map JS.join String.concat].
    rewrite (Hx f _ Hsx). cbn [mbind option_bind fst snd].
    rewrite skipWs_newline, skipWs_indent. reflexivity.
  - cbn [map]. rewrite join_cons, !append_assoc.
    rewrite (Hx f _ Hsx). cbn [mbind option_bind fst snd].
    unfold separatorAt at 1. rewrite !append_assoc.
    change ("," +:+ ?s) with (String "," s).
    rewrite skipWs_head by done.
    change (N_of_ascii "," =? 44)%N with true. cbn match.
    cbn [map] in IH.
    rewrite IH; [reflexivity|done|done|done|]. cbn in Hn |- *. lia.
Qed.

(** ** Objects *)

(** One member of an object: its key, the colon, its value. *)
Lemma parseMembers_member parseItem n k text v rest :
  parseItem (" " +:+ text) = Some (v, rest) →
  JSON.parseMembers parseItem (S n) (JSON.quote k +:+ ": " +:+ text)
  = match JSON.skipWs rest with
    | String c rest' =>
        if (N_of_ascii c =? 44)%N then
          rs ← JSON.parseMembers parseItem n rest';
          Some ((k, v) :: rs.1, rs.2)
        else if (N_of_ascii c =? 125)%N then Some ([(k, v)], rest')
        else None
    | "" => None
    end.
Proof.
  intros Hitem. rewrite quote_append.
  cbn [JSON.parseMembers].
  rewrite skipWs_head by done.
  change (N_of_ascii JSON.dquote =? 34)%N with true. cbn match.
  rewrite parseChars_quoteChars. cbn [mbind option_bind fst snd].
  change (": " +:+ text) with (String ":" (" " +:+ text)).
  rewrite skipWs_head by done.
  change (N_of_ascii ":" =? 58)%N with true. cbn match.
  rewrite Hitem. reflexivity.
Qed.

(** The members of an object, each value read back by [parseValue f], are
    read back by [parseMembers] up to the closing brace. *)
Lemma parseMembers_serialized f depth members rest :
  members ≠ [] →
  Forall (λ m, readsBack (S depth) m.2) members →
  Forall (λ m, jsonSize m.2 ≤ f)%nat members →
  ∀ n, (length members ≤ n)%nat →
    JSON.parseMembers (JSON.parseValue f) n
      (JSON.newline +:+ JSON.indentOf (S depth)
       +:+ JS.join (separatorAt (S depth)) (map (memberText (S depth)) members)
       +:+ JSON.newline +:+ JSON.indentOf depth +:+ "}" +:+ rest)
    = Some (members, rest).
Proof.
  intros Hne Hread Hsize.
  induction members as [|[k v] members IH]; [done|]. clear Hne.
  intros [|n] Hn; [cbn in Hn; lia|].
  apply Forall_cons in Hread as [Hv Hread].
  apply Forall_cons in Hsize as [Hsv Hsize]. cbn [snd] in Hv, Hsv.
  rewrite <- parseMembers_skipWs, skipWs_newline, skipWs_indent, parseMembers_skipWs.
  destruct members as [|m members].
  - cbn [map JS.join String.concat]. unfold memberText at 1. cbn [fst snd].
    rewrite !append_assoc.
    rewrite (parseMembers_member _ n k _ v
               (JSON.newline +:+ JSON.indentOf depth +:+ "}" +:+ rest)).
    + rewrite skipWs_newline, skipWs_indent. reflexivity.
    + rewrite <- parseValue_skipWs. change (JSON.skipWs (" " +:+ ?s)) with (JSON.skipWs s).
      rewrite parseValue_skipWs. by apply Hv.
  - cbn [map]. rewrite join_cons. unfold memberText at 1. cbn [fst snd].
    rewrite !append_assoc.
    rewrite (parseMembers_member _ n k _ v
               (separatorAt (S depth)
                +:+ JS.join (separatorAt (S depth))
                      (memberText (S depth) m :: map (memberText (S depth)) members)
                +:+ JSON.newline +:+ JSON.indentOf depth +:+ "}" +:+ rest)).
    + unfold separatorAt at 1. rewrite !append_assoc.
      change ("," +:+ ?s) with (String "," s).
      rewrite skipWs_head by done.
      change (N_of_ascii "," =? 44)%N with true. cbn match.
      cbn [map] in IH.
      rewrite IH; [reflexivity|done|done|done|]. cbn in Hn |- *. lia.
    + rewrite <- parseValue_skipWs. change (JSON.skipWs (" " +:+ ?s)) with (JSON.skipWs s).
      rewrite parseValue_skipWs. by apply Hv.
Qed.

(** ** Values *)

Lemma sum_list_bound {X} (size : X → nat) (l : list X) n :
  (sum_list (map size l) ≤ n)%nat →
  (∀ x, 1 ≤ size x)%nat →
  Forall (λ x, size x ≤ n)%nat l ∧ (length l ≤ n)%nat.
Proof.
  intros Hsum Hpos. revert n Hsum.
  induction l as [|x l IH]; intros n Hsum; cbn in *.
  - split; [constructor|lia].
  - destruct (IH (n - size x)%nat) as [Hall Hlen]; [lia|].
    pose proof (Hpos x). split; [|lia].
    constructor; [lia|]. eapply Forall_impl; [exact Hall|]. cbn. lia.
Qed.

Lemma jsonSize_pos v : (1 ≤ jsonSize v)%nat.
Proof. destruct v; cbn; lia. Qed.

Lemma parseValue_open_array f text c s :
  JSON.skipWs text = String c s → (N_of_ascii c =? 93)%N = false →
  JSON.parseValue (S f) (String "[" text)
  = r ← JSON.parseElements (JSON.parseValue f) f text; Some (JArray r.1, r.2).
Proof.
  intros Hskip Hc. cbn [JSON.parseValue]. rewrite skipWs_head by done.
  change (N_of_ascii "[" =? 34)%N with false.
  change (N_of_ascii "[" =? 91)%N with true. cbn match.
  by rewrite Hskip, Hc.
Qed.

Lemma parseValue_open_object f text c s :
  JSON.skipWs text = String c s → (N_of_ascii c =? 125)%N = false →
  JSON.parseValue (S f) (String "{" text)
  = r ← JSON.parseMembers (JSON.parseValue f) f text; Some (JObject r.1, r.2).
Proof.
  intros Hskip Hc. cbn [JSON.parseValue]. rewrite skipWs_head by done.
  change (N_of_ascii "{" =? 34)%N with false.
  change (N_of_ascii "{" =? 91)%N with false.
  change (N_of_ascii "{" =? 123)%N with true. cbn match.
  by rewrite Hskip, Hc.
Qed.

Lemma skipWs_opens c s t :
  JSON.isWs c = false →
  JSON.skipWs (String c s +:+ t) = String c (s +:+ t).
Proof. intros Hc. by rewrite <- (skipWs_head c (s +:+ t) Hc). Qed.

(** Every value is read back from its text, at any depth and whatever
    follows. *)
Lemma serialize_readsBack v : ∀ depth, readsBack depth v.
Proof.
  induction v as [| b | s | items IH | members IH] using json_induction;
    intros depth [|f] rest Hfuel; try (cbn in Hfuel; lia).
  - reflexivity.
  - destruct b; reflexivity.
  - cbn [JSON.serialize]. rewrite quote_append.
    cbn [JSON.parseValue]. rewrite skipWs_head by done.
    change (N_of_ascii JSON.dquote =? 34)%N with true. cbn match.
    by rewrite parseChars_quoteChars.
  - destruct items as [|x items]; [reflexivity|].
    cbn [jsonSize] in Hfuel.
    destruct (sum_list_bound jsonSize (x :: items) f) as [Hsizes Hlen];
      [lia|apply jsonSize_pos|].
    assert (JSON.serialize depth (JArray (x :: items))
            = "[" +:+ JSON.newline +:+ JSON.indentOf (S depth)
              +:+ JS.join (separatorAt (S depth))
                    (map (JSON.serialize (S depth)) (x :: items))
              +:+ JSON.newline +:+ JSON.indentOf depth +:+ "]") as -> by reflexivity.
    rewrite !append_assoc.
    change ("[" +:+ ?s) with (String "[" s).
    destruct (serialize_head (S depth) x) as (c & s & Hx & Hws & Hb & _).
    assert (∃ s', JS.join (separatorAt (S depth))
                    (map (JSON.serialize (S depth)) (x :: items))
                  = String c s') as [s' Hjoin].
    { cbn [map]. rewrite Hx. destruct items; cbn; eauto. }
    erewrite parseValue_open_array; [| |exact Hb].
    + rewrite (parseElements_serialized f depth (x :: items) rest); try done.
      eapply Forall_impl; [exact IH|]. cbn. intros v Hv. apply Hv.
    + rewrite skipWs_newline, skipWs_indent, Hjoin. by apply skipWs_opens.
  - destruct members as [|m members]; [reflexivity|].
    cbn [jsonSize] in Hfuel.
    destruct (sum_list_bound (λ m, jsonSize m.2) (m :: members) f) as [Hsizes Hlen];
      [lia|intros; apply jsonSize_pos|].
    assert (JSON.serialize depth (JObject (m :: members))
            = "{" +:+ JSON.newline +:+ JSON.indentOf (S depth)
              +:+ JS.join (separatorAt (S depth))
                    (map (memberText (S depth)) (m :: members))
              +:+ JSON.newline +:+ JSON.indentOf depth +:+ "}") as -> by reflexivity.
    rewrite !append_assoc.
    change ("{" +:+ ?s) with (String "{" s).
    assert (∃ s', JS.join (separatorAt (S depth))
                    (map (memberText (S depth)) (m :: members))
                  = String JSON.dquote s') as [s' Hjoin].
    { cbn [map]. unfold memberText at 1. destruct members; cbn; eauto. }
    erewrite (parseValue_open_object f _ JSON.dquote); [| |done].
    + rewrite (parseMembers_serialized f depth (m :: members) rest); try done.
      eapply Forall_impl; [exact IH|]. cbn. intros v Hv. apply Hv.
    + rewrite skipWs_newline, skipWs_indent, Hjoin. by apply skipWs_opens.
Qed.

(** The text of a value has at least as many characters as the value has
    parts: the length of a text is fuel enough to read it. *)
Lemma length_join_ge sep parts :
  (sum_list (String.length <$> parts) ≤ String.length (JS.join sep parts))%nat.
Proof.
  induction parts as [|x parts IH]; [done|].
  destruct parts as [|y parts].
  - cbn. lia.
  - rewrite join_cons, !length_append.
    cbn [fmap list_fmap sum_list] in *. unfold id in *. lia.
Qed.

Lemma sum_list_le {X} (f g : X → nat) (l : list X) :
  Forall (λ x, f x ≤ g x)%nat l → (sum_list (map f l) ≤ sum_list (map g l))%nat.
Proof. induction 1; cbn; lia. Qed.

Lemma jsonSize_le_length v :
  ∀ depth, (jsonSize v ≤ String.length (JSON.serialize depth v))%nat.
Proof.
  induction v as [| b | s | items IH | members IH] using json_induction;
    intros depth.
  - cbn. lia.
  - destruct b; cbn; lia.
  - cbn. lia.
  - destruct items as [|x items]; [cbn; lia|].
    assert (JSON.serialize depth (JArray (x :: items))
            = "[" +:+ JSON.newline +:+ JSON.indentOf (S depth)
              +:+ JS.join (separatorAt (S depth))
                    (map (JSON.serialize (S depth)) (x :: items))
              +:+ JSON.newline +:+ JSON.indentOf depth +:+ "]") as -> by reflexivity.
    rewrite !length_append. cbn [jsonSize].
    pose proof (length_join_ge (separatorAt (S depth))
                  (map (JSON.serialize (S depth)) (x :: items))) as Hj.
    pose proof (sum_list_le jsonSize
                  (λ v, String.length (JSON.serialize (S depth) v)) (x :: items)) as Hs.
    rewrite <- list_fmap_compose in Hj.
    change (?f <$> ?l) with (map f l) in Hj. unfold compose in Hj.
    cbn [String.length]. etrans; [apply le_n_S, Hs|lia].
    eapply Forall_impl; [exact IH|]. cbn. auto.
  - destruct members as [|m members]; [cbn; lia|].
    assert (JSON.serialize depth (JObject (m :: members))
            = "{" +:+ JSON.newline +:+ JSON.indentOf (S depth)
              +:+ JS.join (separatorAt (S depth))
                    (map (memberText (S depth)) (m :: members))
              +:+ JSON.newline +:+ JSON.indentOf depth +:+ "}") as -> by reflexivity.
    rewrite !length_append. cbn [jsonSize].
    pose proof (length_join_ge (separatorAt (S depth))
                  (map (memberText (S depth)) (m :: members))) as Hj.
    pose proof (sum_list_le (λ m, jsonSize m.2)
                  (λ m, String.length (memberText (S depth) m)) (m :: members)) as Hs.
    rewrite <- list_fmap_compose in Hj.
    change (?f <$> ?l) with (map f l) in Hj. unfold compose in Hj.
    cbn [String.length]. etrans; [apply le_n_S, Hs|lia].
    eapply Forall_impl; [exact IH|]. cbn. intros [k v] Hv. cbn [snd] in *.
    unfold memberText. cbn [fst snd]. rewrite !length_append.
    specialize (Hv (S depth)). cbn [String.length]. lia.
Qed.

(** [JSON.parse] reads back what [JSON.stringify] wrote, for every value. *)
Lemma parse_stringify v : JSON.parse (JSON.stringify v) = Some v.
Proof.
  unfold JSON.parse, JSON.stringify.
  pose proof (serialize_readsBack v 0 (String.length (JSON.serialize 0 v)) ""
                (jsonSize_le_length v 0)) as Hread.
  rewrite append_nil_r in Hread. by rewrite Hread.
Qed.

(** ** The JSON renderer *)

Lemma typeOfName_typeName t : typeOfName (typeName t) = Some t.
Proof. by destruct t. Qed.

Lemma asResult_resultValue r : asResult (resultValue r) = Some r.
Proof.
  destruct r as [t rs e]. unfold asResult, resultValue. cbn [type records error].
  cbn [member app String.eqb Ascii.eqb Bool.eqb mbind option_bind asString asArray].
  rewrite typeOfName_typeName. cbn [mbind option_bind].
  change (map JString rs) with (JString <$> rs).
  rewrite (mapM_fmap_Some asString JString rs) by done.
  cbn [mbind option_bind]. by destruct e.
Qed.

Lemma asDocument_documentValue domain results :
  asDocument (documentValue domain results) = Some (domain, results).
Proof.
  unfold asDocument, documentValue.
  cbn [member String.eqb Ascii.eqb Bool.eqb mbind option_bind asString asArray].
  change (map resultValue results) with (resultValue <$> results).
  rewrite (mapM_fmap_Some asResult resultValue results); [done|].
  apply asResult_resultValue.
Qed.

(** C5.  Parsing the text written by the JSON formatter gives back the
    document: an object with the domain and the results in their order,
    each result with its type and records, and with an error member only
    when the result has an error (no member at all otherwise, not a null
    one); read back as a domain and a list of results it is the input.  The
    text is a function of the input, and determines it. *)
Theorem formatJson_roundtrip domain results :
  JSON.parse (formatJson domain results)
  = Some (JObject [ ("domain", JString domain);
                    ("results", JArray (map resultValue results)) ])
  ∧ (JSON.parse (formatJson domain results) ≫= asDocument)
    = Some (domain, results)
  ∧ (∀ r, ∃ members,
       resultValue r = JObject members
       ∧ member "type" members = Some (JString (typeName (type r)))
       ∧ member "records" members = Some (JArray (map JString (records r)))
       ∧ member "error" members = JString <$> error r)
  ∧ (∀ domain' results',
       formatJson domain' results' = formatJson domain results ↔
       domain' = domain ∧ results' = results).
Proof.
  assert (∀ d rs, JSON.parse (formatJson d rs) ≫= asDocument = Some (d, rs))
    as Hback.
  { intros d rs. unfold formatJson. rewrite parse_stringify. cbn [mbind option_bind].
    apply asDocument_documentValue. }
  split_and!.
  - unfold formatJson. by rewrite parse_stringify.
  - apply Hback.
  - intros [t rs e]. eexists. split; [reflexivity|].
    cbn [type records error]. by destruct e.
  - intros domain' results'. split.
    + intros Heq. pose proof (Hback domain' results') as H'.
      rewrite Heq, Hback in H'. by injection H' as -> ->.
    + by intros [-> ->].
Qed.

Example formatJson_scenario :
  formatJson "example.com"
    [ mkDnsResult A ["93.184.216.34"] None;
      mkDnsResult NS [] (Some "Connection refused") ]
  = JS.join JSON.newline
      [ "{";
        "  " +:+ JSON.quote "domain" +:+ ": " +:+ JSON.quote "example.com" +:+ ",";
        "  " +:+ JSON.quote "results" +:+ ": [";
        "    {";
        "      " +:+ JSON.quote "type" +:+ ": " +:+ JSON.quote "A" +:+ ",";
        "      " +:+ JSON.quote "records" +:+ ": [";
        "        " +:+ JSON.quote "93.184.216.34";
        "      ]";
        "    },";
        "    {";
        "      " +:+ JSON.quote "type" +:+ ": " +:+ JSON.quote "NS" +:+ ",";
        "      " +:+ JSON.quote "records" +:+ ": [],";
        "      " +:+ JSON.quote "error" +:+ ": " +:+ JSON.quote "Connection refused";
        "    }";
        "  ]";
        "}" ].
Proof. reflexivity. Qed.

(** * Further properties *)

(** ** [String.prototype.split] *)

Lemma prefix_spec sep s :
  String.prefix sep s = true ↔ ∃ t, s = sep +:+ t.
Proof.
  revert s. induction sep as [|a sep IH]; intros s.
  - destruct s; cbn; split; eauto.
  - destruct s as [|b s]; cbn.
    + split; [done|]. intros [t Ht]. discriminate Ht.
    + destruct (ascii_dec a b) as [->|Hab].
      * rewrite IH. split; intros [t Ht]; exists t; congruence.
      * split; [done|]. intros [t Ht]. congruence.
Qed.

Lemma string_of_list_snoc l c s :
  string_of_list_ascii (l ++ [c]) +:+ s = string_of_list_ascii l +:+ String c s.
Proof. induction l as [|a l IH]; simpl; [done|]. by rewrite IH. Qed.

Lemma length_string_of_list l :
  String.length (string_of_list_ascii l) = length l.
Proof. induction l as [|a l IH]; simpl; [done|]. by rewrite IH. Qed.

(** Passing over the rest of a separator. *)
Lemma splitFrom_skip sep pre piece s :
  Str.splitFrom sep (String.length pre) piece (pre +:+ s)
  = Str.splitFrom sep 0 piece s.
Proof. induction pre as [|c pre IH]; simpl; [done|]. exact IH. Qed.

Lemma splitFrom_cons sep skip piece s :
  ∃ x l, Str.splitFrom sep skip piece s = x :: l.
Proof.
  revert skip piece.
  induction s as [|c s IH]; intros skip piece; cbn [Str.splitFrom].
  - eauto.
  - destruct skip; [|apply IH]. destruct (String.prefix sep (String c s)); [eauto|].
    apply IH.
Qed.

Lemma join_cons_cases sep x l :
  JS.join sep (x :: l)
  = x +:+ match l with [] => "" | _ => sep +:+ JS.join sep l end.
Proof. destruct l; [symmetry; apply append_nil_r|reflexivity]. Qed.

(** Joining the pieces with the separator gives the text back. *)
Lemma join_splitFrom sep n :
  sep ≠ "" → ∀ s piece, (String.length s ≤ n)%nat →
  JS.join sep (Str.splitFrom sep 0 piece s)
  = string_of_list_ascii (rev piece) +:+ s.
Proof.
  intros Hsep. induction n as [|n IH]; intros s piece Hn.
  - destruct s; [|simpl in Hn; lia]. simpl. unfold JS.join. simpl.
    by rewrite append_nil_r.
  - destruct s as [|c s]; [simpl; unfold JS.join; simpl; by rewrite append_nil_r|].
    simpl in Hn. cbn [Str.splitFrom].
    destruct (String.prefix sep (String c s)) eqn:Hp.
    + apply prefix_spec in Hp as [t Ht].
      destruct sep as [|c0 sep']; [done|]. simpl in Ht. injection Ht as -> ->.
      cbn [String.length]. rewrite Nat.sub_succ, Nat.sub_0_r, splitFrom_skip.
      destruct (splitFrom_cons (String c0 sep') 0 [] t) as (y & l & Hy).
      rewrite join_cons_cases, Hy, <- Hy, IH.
      * simpl. done.
      * rewrite length_append in Hn. lia.
    + rewrite IH by lia. simpl. by rewrite string_of_list_snoc.
Qed.

Lemma join_split sep s : sep ≠ "" → JS.join sep (Str.split sep s) = s.
Proof.
  intros Hsep. unfold Str.split.
  by rewrite (join_splitFrom sep (String.length s)).
Qed.

(** The first piece ends at the leftmost occurrence of the separator. *)
Lemma splitFrom_leftmost sep s piece x l :
  sep ≠ "" → Str.splitFrom sep 0 piece s = x :: l →
  (∀ a b, s = a +:+ sep +:+ b →
     l ≠ [] ∧ (String.length x ≤ length piece + String.length a)%nat)
  ∧ (l ≠ [] → occursIn sep s).
Proof.
  intros Hsep. revert piece.
  induction s as [|c s IH]; intros piece; cbn [Str.splitFrom].
  - intros [= <- <-]. split; [|done]. intros a b Hab.
    destruct a; [|discriminate Hab]. destruct sep; [done|discriminate Hab].
  - destruct (String.prefix sep (String c s)) eqn:Hp.
    + intros [= <- <-].
      destruct (splitFrom_cons sep (String.length sep - 1) [] s) as (y & l' & ->).
      split.
      * intros a b _. split; [done|].
        rewrite length_string_of_list, length_rev. lia.
      * intros _. apply prefix_spec in Hp as [t Ht]. exists "", t. by rewrite Ht.
    + intros Hx. destruct (IH _ Hx) as [Hleft Hocc]. split.
      * intros a b Hab. destruct a as [|c' a].
        { simpl in Hab. assert (String.prefix sep (String c s) = true) as Hp'
            by (apply prefix_spec; eauto). congruence. }
        simpl in Hab. injection Hab as -> ->.
        destruct (Hleft a b eq_refl) as [Hl Hlen]. split; [done|].
        simpl in Hlen |- *. lia.
      * intros Hl. destruct (Hocc Hl) as (a & b & ->).
        exists (String c a), b. done.
Qed.

(** The text before the first occurrence of a separator, and the rest put
    together again: what a row of the table makes of a record. *)
Lemma split_first_rest sep record :
  sep ≠ "" →
  ∃ first rest,
    Str.split sep record = first :: rest
    ∧ (rest = [] → first = record ∧ ¬ occursIn sep record)
    ∧ (rest ≠ [] →
       record = first +:+ sep +:+ JS.join sep rest
       ∧ ∀ a b, record = a +:+ sep +:+ b →
           (String.length first ≤ String.length a)%nat).
Proof.
  intros Hsep.
  destruct (splitFrom_cons sep 0 [] record) as (first & rest & Hs).
  exists first, rest. unfold Str.split. split; [done|].
  pose proof (join_split sep record Hsep) as Hj. unfold Str.split in Hj.
  rewrite Hs, join_cons_cases in Hj.
  destruct (splitFrom_leftmost sep record [] first rest Hsep Hs) as [Hleft Hocc].
  split.
  - intros ->. rewrite append_nil_r in Hj. split; [done|].
    intros (a & b & Hab). by destruct (Hleft a b Hab).
  - intros Hne. split.
    + destruct rest; [done|]. by rewrite Hj.
    + intros a b Hab. destruct (Hleft a b Hab) as [_ Hlen]. simpl in Hlen. lia.
Qed.

Lemma split_none sep s : sep ≠ "" → ¬ occursIn sep s → Str.split sep s = [s].
Proof.
  intros Hsep Hno.
  destruct (split_first_rest sep s Hsep) as (first & rest & Hs & Hnil & Hcons).
  destruct rest as [|y rest].
  - destruct (Hnil eq_refl) as [-> _]. exact Hs.
  - destruct (Hcons ltac:(done)) as [Hrec _]. destruct Hno.
    exists first, (JS.join sep (y :: rest)). exact Hrec.
Qed.

(** Splitting at a character that the first part does not have. *)
Lemma splitFrom_char c a b piece :
  hasChar c a = false →
  Str.splitFrom (String c "") 0 piece (a +:+ String c b)
  = (string_of_list_ascii (rev piece) +:+ a) :: Str.splitFrom (String c "") 0 [] b.
Proof.
  revert piece. induction a as [|c' a IH]; intros piece Hno.
  - simpl String.append. cbn [Str.splitFrom].
    assert (String.prefix (String c "") (String c b) = true) as ->
      by (apply prefix_spec; by exists b).
    by rewrite append_nil_r.
  - simpl in Hno. apply orb_false_iff in Hno as [Hc Ha].
    simpl String.append. cbn [Str.splitFrom].
    destruct (String.prefix (String c "") (String c' (a +:+ String c b))) eqn:Hp.
    + apply prefix_spec in Hp as [t Ht]. simpl in Ht. injection Ht as <- _.
      by rewrite Ascii.eqb_refl in Hc.
    + rewrite IH by done. simpl. by rewrite string_of_list_snoc.
Qed.

Lemma split_char c a b :
  hasChar c a = false →
  Str.split (String c "") (a +:+ String c b) = a :: Str.split (String c "") b.
Proof. intros Hno. unfold Str.split. by rewrite splitFrom_char. Qed.

Lemma hasChar_occurs c s :
  hasChar c s = true ↔ occursIn (String c "") s.
Proof.
  induction s as [|c' s IH]; simpl.
  - split; [done|]. intros (a & b & Hab). by destruct a.
  - rewrite orb_true_iff, IH. split.
    + intros [Hc|(a & b & ->)].
      * apply Ascii.eqb_eq in Hc as ->. by exists "", s.
      * by exists (String c' a), b.
    + intros (a & b & Hab). destruct a as [|c'' a]; simpl in Hab.
      * injection Hab as -> _. left. apply Ascii.eqb_refl.
      * injection Hab as _ ->. right. by exists a, b.
Qed.

(** The first piece of a split at a character does not have it. *)
Lemma split_char_first c s first rest :
  Str.split (String c "") s = first :: rest → hasChar c first = false.
Proof.
  intros Hs.
  destruct (split_first_rest (String c "") s ltac:(done))
    as (first' & rest' & Hs' & Hnil & Hcons).
  rewrite Hs in Hs'. injection Hs' as <- <-.
  destruct (hasChar c first) eqn:Hc; [|done].
  apply hasChar_occurs in Hc as (a & b & Hab).
  destruct rest as [|y rest].
  - destruct (Hnil eq_refl) as [-> Hno]. destruct Hno. by exists a, b.
  - destruct (Hcons ltac:(done)) as [Hrec Hleft].
    specialize (Hleft a (b +:+ String c "" +:+ JS.join (String c "") (y :: rest))).
    rewrite Hrec, Hab, !append_assoc in Hleft. specialize (Hleft eq_refl).
    rewrite !length_append in Hleft. simpl in Hleft. lia.
Qed.

Lemma firstWord_id a : hasChar " " a = false → firstWord a = a.
Proof.
  induction a as [|c a IH]; [done|].
  cbn [hasChar firstWord String.append]. intros [Hc Ha]%orb_false_iff.
  rewrite Ascii.eqb_sym in Hc. rewrite Hc. by rewrite IH.
Qed.

Lemma firstWord_app a b :
  hasChar " " a = false → firstWord (a +:+ String " " b) = a.
Proof.
  induction a as [|c a IH]; [done|].
  cbn [hasChar firstWord String.append]. intros [Hc Ha]%orb_false_iff.
  rewrite Ascii.eqb_sym in Hc. rewrite Hc. by rewrite IH.
Qed.

Lemma split_firstWord s : ∃ rest, Str.split " " s = firstWord s :: rest.
Proof.
  destruct (split_first_rest " " s ltac:(done))
    as (first & rest & Hs & Hnil & Hcons).
  pose proof (split_char_first _ _ _ _ Hs) as Hno.
  exists rest. rewrite Hs. f_equal. destruct rest as [|y rest].
  - destruct (Hnil eq_refl) as [<- _]. by rewrite firstWord_id.
  - destruct (Hcons ltac:(done)) as [-> _].
    change (" " +:+ ?x) with (String " " x). by rewrite firstWord_app.
Qed.

(** ** The digits of a number *)

Lemma pretty_N_char_no_space n : Ascii.eqb " " (pretty_N_char n) = false.
Proof. unfold pretty_N_char. by repeat case_match. Qed.

Lemma pretty_N_go_no_space x : ∀ s,
  hasChar " " s = false → hasChar " " (pretty_N_go x s) = false.
Proof.
  induction (N.lt_wf_0 x) as [x _ IH]. intros s Hs.
  destruct (decide (x = 0)%N) as [->|Hx].
  - by rewrite pretty_N_go_0.
  - rewrite pretty_N_go_step by lia. apply IH.
    + apply N.div_lt; lia.
    + cbn [hasChar]. by rewrite pretty_N_char_no_space.
Qed.

(** The rendering of a number has no space. *)
Lemma numberToString_no_space n : hasChar " " (JS.numberToString n) = false.
Proof.
  assert (∀ p, hasChar " " (pretty (N.pos p)) = false) as Hpos.
  { intros p. unfold pretty, pretty_N. case_decide; [done|].
    by apply pretty_N_go_no_space. }
  unfold JS.numberToString, pretty, pretty_Z.
  destruct n as [|p|p]; [done|apply Hpos|].
  simpl. apply Hpos.
Qed.

(** ** The rows of the tables *)

Section RowFacts.
Context (chalk : list Style → string → string).

(** X1.  An SOA row and an MX row are cut at the first separator (": " for
    SOA, a space for MX): the first cell is the text before it, the second
    cell all the text after it, later separators included; a record without
    the separator is the first cell, with an empty second cell. *)
Theorem row_first_separator record :
  (∃ key value,
     soaRow chalk record = [chalk [Dim] key; chalk [White] value]
     ∧ ((¬ occursIn ": " record ∧ key = record ∧ value = "")
        ∨ (record = key +:+ ": " +:+ value
           ∧ ∀ a b, record = a +:+ ": " +:+ b →
               (String.length key ≤ String.length a)%nat)))
  ∧ (∃ priority exchange,
       mxRow chalk record = [chalk [Yellow] priority; chalk [White] exchange]
       ∧ ((¬ occursIn " " record ∧ priority = record ∧ exchange = "")
          ∨ (record = priority +:+ " " +:+ exchange
             ∧ ∀ a b, record = a +:+ " " +:+ b →
                 (String.length priority ≤ String.length a)%nat))).
Proof.
  split.
  - destruct (split_first_rest ": " record ltac:(done))
      as (first & rest & Hs & Hnil & Hcons).
    exists first, (JS.join ": " rest). unfold soaRow. rewrite Hs.
    split; [done|]. destruct rest as [|y rest].
    + left. destruct (Hnil eq_refl) as [-> Hno]. done.
    + right. by apply Hcons.
  - destruct (split_first_rest " " record ltac:(done))
      as (first & rest & Hs & Hnil & Hcons).
    exists first, (JS.join " " rest). unfold mxRow. rewrite Hs.
    split; [done|]. destruct rest as [|y rest].
    + left. destruct (Hnil eq_refl) as [-> Hno]. done.
    + right. by apply Hcons.
Qed.

Lemma prefix_empty s : String.prefix "" s = true.
Proof. by destruct s. Qed.

(** What the rows make of the records the resolver writes. *)
Lemma soaRow_labelled text label value :
  Str.split ": " text = label :: Str.split ": " value →
  soaRow chalk text = [chalk [Dim] label; chalk [White] value].
Proof. intros Hs. unfold soaRow. by rewrite Hs, join_split. Qed.

Ltac soa_label :=
  intros; apply soaRow_labelled; unfold Str.split; simpl;
  by rewrite prefix_empty.

Lemma soaRows_rendered record :
  map (soaRow chalk) (renderSoa record)
  = [ [chalk [Dim] "Primary NS"; chalk [White] (nsname record)];
      [chalk [Dim] "Hostmaster"; chalk [White] (hostmaster record)];
      [chalk [Dim] "Serial"; chalk [White] (JS.numberToString (serial record))];
      [chalk [Dim] "Refresh";
       chalk [White] (JS.numberToString (refresh record) +:+ "s")];
      [chalk [Dim] "Retry";
       chalk [White] (JS.numberToString (retry record) +:+ "s")];
      [chalk [Dim] "Expire";
       chalk [White] (JS.numberToString (expire record) +:+ "s")];
      [chalk [Dim] "Min TTL";
       chalk [White] (JS.numberToString (minttl record) +:+ "s")] ].
Proof.
  assert (∀ v, soaRow chalk ("Primary NS: " +:+ v)
               = [chalk [Dim] "Primary NS"; chalk [White] v]) as H1 by soa_label.
  assert (∀ v, soaRow chalk ("Hostmaster: " +:+ v)
               = [chalk [Dim] "Hostmaster"; chalk [White] v]) as H2 by soa_label.
  assert (∀ v, soaRow chalk ("Serial: " +:+ v)
               = [chalk [Dim] "Serial"; chalk [White] v]) as H3 by soa_label.
  assert (∀ v, soaRow chalk ("Refresh: " +:+ v)
               = [chalk [Dim] "Refresh"; chalk [White] v]) as H4 by soa_label.
  assert (∀ v, soaRow chalk ("Retry: " +:+ v)
               = [chalk [Dim] "Retry"; chalk [White] v]) as H5 by soa_label.
  assert (∀ v, soaRow chalk ("Expire: " +:+ v)
               = [chalk [Dim] "Expire"; chalk [White] v]) as H6 by soa_label.
  assert (∀ v, soaRow chalk ("Min TTL: " +:+ v)
               = [chalk [Dim] "Min TTL"; chalk [White] v]) as H7 by soa_label.
  unfold renderSoa. cbn [map]. by rewrite H1, H2, H3, H4, H5, H6, H7.
Qed.

Lemma mxRow_rendered r :
  mxRow chalk (renderMx r)
  = [chalk [Yellow] (JS.numberToString (priority r)); chalk [White] (exchangeText r)].
Proof.
  assert (renderMx r
          = JS.numberToString (priority r) +:+ String " " (exchangeText r)) as ->.
  { unfold renderMx, exchangeText.
    destruct (Z.eqb_spec (priority r) 0) as [Hp|Hp];
      destruct (String.eqb_spec (exchange r) ".") as [Hx|Hx]; cbn [andb].
    - by rewrite decide_True.
    - rewrite decide_False; [done|]. by intros [_ ?].
    - rewrite decide_False; [done|]. by intros [? _].
    - rewrite decide_False; [done|]. by intros [? _]. }
  unfold mxRow. rewrite split_char by apply numberToString_no_space.
  by rewrite join_split.
Qed.

Lemma caaRow_rendered r :
  caaRow chalk (renderCaa r)
  = [ chalk [Yellow] (if decide (critical r = 0%Z) then "0" else "128");
      chalk [Cyan] (match issue r, issuewild r with
                    | Some _, _ => "issue"
                    | None, Some _ => "issuewild"
                    | None, None => "iodef"
                    end);
      chalk [White] (match issue r, issuewild r, iodef r with
                     | Some v, _, _ => v
                     | None, Some v, _ => v
                     | None, None, Some v => v
                     | None, None, None => "unknown"
                     end) ].
Proof.
  unfold renderCaa, caaRow, JS.truthyNum, JS.nullish.
  destruct (Z.eqb_spec (critical r) 0) as [Hc|Hc];
    [rewrite decide_True by done|rewrite decide_False by done];
    destruct (issue r) as [v1|], (issuewild r) as [v2|], (iodef r) as [v3|];
    cbn [negb];
    match goal with
    | |- context [Str.split " " (?f +:+ " " +:+ ?t +:+ " " +:+ ?v)] =>
        change (f +:+ " " +:+ t +:+ " " +:+ v)
          with (f +:+ String " " (t +:+ String " " v));
        rewrite (split_char " " f) by done;
        rewrite (split_char " " t) by done
    end; cbn [lookup list_lookup drop Str.ofElement];
    by rewrite drop_0, join_split.
Qed.

Lemma srvRow_rendered r :
  srvRow chalk (renderSrv r)
  = [ chalk [Yellow] (JS.numberToString (srvPriority r));
      chalk [White] (JS.numberToString (weight r));
      chalk [Cyan] (JS.numberToString (port r));
      chalk [White] (firstWord (name r)) ].
Proof.
  destruct (split_firstWord (name r)) as [rest Hs].
  unfold srvRow, renderSrv.
  change (?a +:+ " " +:+ ?b +:+ " " +:+ ?c +:+ " " +:+ ?d)
    with (a +:+ String " " (b +:+ String " " (c +:+ String " " d))).
  rewrite !split_char by apply numberToString_no_space.
  by rewrite Hs.
Qed.
End RowFacts.

(** ** The blocks of the table *)

Section BlockFacts.
Context (chalk : list Style → string → string).
Context (tableToString : TableOptions → list (list string) → string).

Local Abbreviation emit := (emitted chalk tableToString).

Lemma label_found t :
  ∃ desc,
    lookupLabel TYPE_LABELS (typeName t)
    = Some (typeName t +:+ " (" +:+ desc +:+ ")").
Proof.
  exists (match t with
          | A => "IPv4" | AAAA => "IPv6" | CNAME => "Canonical Name"
          | MX => "Mail Exchange" | NS => "Name Servers" | TXT => "Text"
          | SOA => "Start of Authority" | CAA => "Certificate Authority"
          | SRV => "Service"
          end).
  by destruct t.
Qed.

(** The lines of the block of a result. *)
Lemma emitted_block short r :
  ∃ desc label,
    label = typeName (type r) +:+ " (" +:+ desc +:+ ")"
    ∧ lookupLabel TYPE_LABELS (typeName (type r)) = Some label
    ∧ emit short r
      = match error r, records r with
        | Some (String c e), _ =>
            [ chalk [Red] ("  ✖ " +:+ label);
              chalk [Red; Dim] ("    Error: " +:+ String c e); "" ]
        | _, [] =>
            if short then []
            else [ chalk [Dim] ("  ○ " +:+ label) +:+ chalk [Dim] "  — no records";
                   "" ]
        | _, _ :: _ =>
            [ chalk [Green] ("  ● " +:+ label);
              recordsTable chalk tableToString r; "" ]
        end.
Proof.
  destruct (label_found (type r)) as [desc Hl].
  exists desc, (typeName (type r) +:+ " (" +:+ desc +:+ ")").
  split; [done|]. split; [done|].
  unfold emitted, tableStep. rewrite Hl. cbn [JS.nullish].
  destruct r as [t rs [[|c e]|]]; cbn [error records type JS.truthyOpt];
    destruct rs, short; cbn; try done.
Qed.

(** X2.  The block of a result, whatever came before it.  Every record
    type has its label in the table of labels, so the bare type name is
    never written.  A result with a non-empty error text gets the failed
    block of three lines and its records, if it has any, are not rendered;
    otherwise a result without records gets the two-line "no records" block
    (nothing in compact mode), and a result with records the marker line,
    its table and an empty line. *)
Theorem emitted_cases short r :
  ∃ desc label,
    label = typeName (type r) +:+ " (" +:+ desc +:+ ")"
    ∧ lookupLabel TYPE_LABELS (typeName (type r)) = Some label
    ∧ emit short r
      = match error r, records r with
        | Some (String c e), _ =>
            [ chalk [Red] ("  ✖ " +:+ label);
              chalk [Red; Dim] ("    Error: " +:+ String c e); "" ]
        | _, [] =>
            if short then []
            else [ chalk [Dim] ("  ○ " +:+ label) +:+ chalk [Dim] "  — no records";
                   "" ]
        | _, _ :: _ =>
            [ chalk [Green] ("  ● " +:+ label);
              recordsTable chalk tableToString r; "" ]
        end.
Proof. apply emitted_block. Qed.

Lemma emitted_present short r label :
  lookupLabel TYPE_LABELS (typeName (type r)) = Some label →
  error r = None → records r ≠ [] →
  emit short r
  = [ chalk [Green] ("  ● " +:+ label);
      recordsTable chalk tableToString r; "" ].
Proof.
  intros Hl He Hr. destruct (emitted_block short r) as (d & l & _ & Hl' & ->).
  rewrite He. destruct (records r); [done|]. congruence.
Qed.
End BlockFacts.

(** ** From the answer of the platform to the table *)

Section AnswerTables.
Context {W : Type} (dns : Resolver W).
Context (chalk : list Style → string → string).
Context (tableToString : TableOptions → list (list string) → string).

Local Abbreviation emit := (emitted chalk tableToString).

(** X3.  When the platform answers the SOA query, the block of the result
    is the marker line, a table without head of seven rows, one per field
    of the answer in the order primary NS, hostmaster, serial, refresh,
    retry, expire, minimum TTL, the label dimmed and the value white, the
    four durations followed by "s", and an empty line.  A value that has
    ": " in it is shown whole. *)
Theorem soa_table domain env record w' short :
  resolveSoa dns domain (world env) = (Resolves record, w') →
  ∃ r,
    (resolveType dns domain SOA env).1 = Fulfilled r
    ∧ emit short r
      = [ chalk [Green] "  ● SOA (Start of Authority)";
          tableToString (tableOptions [])
            [ [chalk [Dim] "Primary NS"; chalk [White] (nsname record)];
              [chalk [Dim] "Hostmaster"; chalk [White] (hostmaster record)];
              [chalk [Dim] "Serial";
               chalk [White] (JS.numberToString (serial record))];
              [chalk [Dim] "Refresh";
               chalk [White] (JS.numberToString (refresh record) +:+ "s")];
              [chalk [Dim] "Retry";
               chalk [White] (JS.numberToString (retry record) +:+ "s")];
              [chalk [Dim] "Expire";
               chalk [White] (JS.numberToString (expire record) +:+ "s")];
              [chalk [Dim] "Min TTL";
               chalk [White] (JS.numberToString (minttl record) +:+ "s")] ];
          "" ].
Proof.
  intros Hsoa. eexists. split.
  { unfold resolveType, queryType. async_unfold. by rewrite Hsoa. }
  rewrite (emitted_present _ _ _ _ "SOA (Start of Authority)") by done.
  unfold recordsTable. cbn [type records]. by rewrite soaRows_rendered.
Qed.

(** X4.  When the platform answers the MX query with at least one answer,
    the block of the result is the marker line, a table with the head
    Priority, Exchange and one row per answer, in ascending order of
    priority: the priority in yellow and the exchange in white, where the
    exchange of a null MX is shown with its explanation, and an empty
    line. *)
Theorem mx_table domain env answers w' short :
  resolveMx dns domain (world env) = (Resolves answers, w') →
  answers ≠ [] →
  ∃ r sorted,
    (resolveType dns domain MX env).1 = Fulfilled r
    ∧ sorted ≡ₚ answers
    ∧ StronglySorted (λ a b, (priority a <= priority b)%Z) sorted
    ∧ emit short r
      = [ chalk [Green] "  ● MX (Mail Exchange)";
          tableToString
            (tableOptions [chalk [Dim] "Priority"; chalk [Dim] "Exchange"])
            (map (λ a, [ chalk [Yellow] (JS.numberToString (priority a));
                         chalk [White]
                           (if decide (priority a = 0%Z ∧ exchange a = ".")
                            then ". (null MX — domain does not accept mail)"
                            else exchange a) ])
               sorted);
          "" ].
Proof.
  intros Hmx Hne.
  eexists. exists (JS.sort (λ a b, priority a - priority b)%Z answers).
  split_and!.
  - unfold resolveType, queryType. async_unfold. by rewrite Hmx.
  - apply (sort_perm priority).
  - apply (sort_sorted priority).
  - rewrite (emitted_present _ _ _ _ "MX (Mail Exchange)"); [|done|done|].
    + unfold recordsTable. cbn [type records]. rewrite map_map.
      by rewrite (map_ext _ _ (mxRow_rendered chalk)).
    + cbn [records]. intros Hnil%map_eq_nil.
      pose proof (sort_perm priority answers) as Hp. rewrite Hnil in Hp.
      by apply Permutation_nil_l in Hp.
Qed.

(** X5.  When the platform answers the CAA query with at least one answer,
    the block of the result is the marker line, a table with the head
    Flags, Tag, Value and one row per answer in the order of the answer:
    the flags 0 or 128 in yellow, the tag in cyan and the value in white,
    whole also when it has spaces in it, and an empty line. *)
Theorem caa_table domain env answers w' short :
  resolveCaa dns domain (world env) = (Resolves answers, w') →
  answers ≠ [] →
  ∃ r,
    (resolveType dns domain CAA env).1 = Fulfilled r
    ∧ emit short r
      = [ chalk [Green] "  ● CAA (Certificate Authority)";
          tableToString
            (tableOptions [chalk [Dim] "Flags"; chalk [Dim] "Tag";
                           chalk [Dim] "Value"])
            (map (λ a,
                    [ chalk [Yellow]
                        (if decide (critical a = 0%Z) then "0" else "128");
                      chalk [Cyan]
                        (match issue a, issuewild a with
                         | Some _, _ => "issue"
                         | None, Some _ => "issuewild"
                         | None, None => "iodef"
                         end);
                      chalk [White]
                        (match issue a, issuewild a, iodef a with
                         | Some v, _, _ => v
                         | None, Some v, _ => v
                         | None, None, Some v => v
                         | None, None, None => "unknown"
                         end) ])
               answers);
          "" ].
Proof.
  intros Hcaa Hne. eexists. split.
  { unfold resolveType, queryType. async_unfold. by rewrite Hcaa. }
  rewrite (emitted_present _ _ _ _ "CAA (Certificate Authority)");
    [|done|done|].
  - unfold recordsTable. cbn [type records]. rewrite map_map.
    by rewrite (map_ext _ _ (caaRow_rendered chalk)).
  - cbn [records]. by intros Hnil%map_eq_nil.
Qed.

(** X6.  When the platform answers the SRV query with at least one answer,
    the block of the result is the marker line, a table with the head
    Priority, Weight, Port, Target and one row per answer in the order of
    the answer, and an empty line.  The target shown is the name of the
    answer up to its first space: a name without space is shown whole,
    what follows a space is not shown. *)
Theorem srv_table domain env answers w' short :
  resolveSrv dns domain (world env) = (Resolves answers, w') →
  answers ≠ [] →
  ∃ r,
    (resolveType dns domain SRV env).1 = Fulfilled r
    ∧ emit short r
      = [ chalk [Green] "  ● SRV (Service)";
          tableToString
            (tableOptions [chalk [Dim] "Priority"; chalk [Dim] "Weight";
                           chalk [Dim] "Port"; chalk [Dim] "Target"])
            (map (λ a,
                    [ chalk [Yellow] (JS.numberToString (srvPriority a));
                      chalk [White] (JS.numberToString (weight a));
                      chalk [Cyan] (JS.numberToString (port a));
                      chalk [White] (firstWord (name a)) ])
               answers);
          "" ]
    ∧ (∀ target, hasChar " " target = false →
         firstWord target = target
         ∧ ∀ more, firstWord (target +:+ " " +:+ more) = target).
Proof.
  intros Hsrv Hne. eexists. split_and!.
  { unfold resolveType, queryType. async_unfold. by rewrite Hsrv. }
  - rewrite (emitted_present _ _ _ _ "SRV (Service)"); [|done|done|].
    + unfold recordsTable. cbn [type records]. rewrite map_map.
      by rewrite (map_ext _ _ (srvRow_rendered chalk)).
    + cbn [records]. by intros Hnil%map_eq_nil.
  - intros target Hno. split; [by apply firstWord_id|].
    intros more. by apply firstWord_app.
Qed.

(** X7.  When the platform answers an A, AAAA, CNAME or NS query, the
    records of the result are the strings of the answer, unchanged and in
    the order of the answer, and there is no error.  With at least one
    string, the block of the result is the marker line with the label of
    the type, a table without head of one white cell per string, and an
    empty line; without any, it is the "no records" block, or nothing in
    compact mode. *)
Theorem plain_table domain t env answers short :
  plainAnswer dns domain t (world env) = Some answers →
  (resolveType dns domain t env).1 = Fulfilled (mkDnsResult t answers None)
  ∧ ∃ label,
      lookupLabel TYPE_LABELS (typeName t) = Some label
      ∧ emit short (mkDnsResult t answers None)
        = match answers with
          | _ :: _ =>
              [ chalk [Green] ("  ● " +:+ label);
                tableToString (tableOptions [])
                  (map (λ a, [chalk [White] a]) answers);
                "" ]
          | [] =>
              if short then []
              else [ chalk [Dim] ("  ○ " +:+ label)
                       +:+ chalk [Dim] "  — no records";
                     "" ]
          end.
Proof.
  intros Hans.
  assert ((resolveType dns domain t env).1
          = Fulfilled (mkDnsResult t answers None)) as Hr.
  { unfold resolveType, queryType. async_unfold.
    destruct t; try discriminate Hans; cbn in Hans;
      match goal with
      | H : resolved (?call).1 = _ |- _ =>
          destruct call as [[a|e] w] eqn:Hc; [|discriminate H];
          injection H as ->
      end; done. }
  split; [exact Hr|].
  destruct (emitted_block chalk tableToString short (mkDnsResult t answers None))
    as (desc & label & _ & Hl & He).
  exists label. split; [exact Hl|]. rewrite He. cbn [error records].
  destruct answers; [done|].
  unfold recordsTable. cbn [type records].
  by destruct t; try discriminate Hans.
Qed.
End AnswerTables.
Lemma soa_table_witness :
  ∃ r,
    (resolveType answeringDns "example.com" SOA scenarioEnv).1 = Fulfilled r
    ∧ emitted plainChalk plainTable false r
      = [ "  ● SOA (Start of Authority)";
          plainTable (tableOptions [])
            [ ["Primary NS"; "ns1.example.com"];
              ["Hostmaster"; "admin.example.com"];
              ["Serial"; "2024010101"];
              ["Refresh"; "3600s"];
              ["Retry"; "900s"];
              ["Expire"; "604800s"];
              ["Min TTL"; "86400s"] ];
          "" ].
Proof.
  exact (soa_table answeringDns plainChalk plainTable "example.com" scenarioEnv
           (mkSoa "ns1.example.com" "admin.example.com"
              2024010101 3600 900 604800 86400) 1%nat false eq_refl).
Defined.
Lemma mx_table_witness :
  ∃ r sorted,
    (resolveType answeringDns "example.com" MX scenarioEnv).1 = Fulfilled r
    ∧ sorted ≡ₚ [ mkMx 20 "mx2.example.com"; mkMx 10 "mx1.example.com";
                  mkMx 30 "mx3.example.com" ]
    ∧ StronglySorted (λ a b, (priority a <= priority b)%Z) sorted
    ∧ emitted plainChalk plainTable true r
      = [ "  ● MX (Mail Exchange)";
          plainTable (tableOptions ["Priority"; "Exchange"])
            (map (λ a, [ JS.numberToString (priority a);
                         if decide (priority a = 0%Z ∧ exchange a = ".")
                         then ". (null MX — domain does not accept mail)"
                         else exchange a ])
               sorted);
          "" ].
Proof.
  exact (mx_table answeringDns plainChalk plainTable "example.com" scenarioEnv
           [ mkMx 20 "mx2.example.com"; mkMx 10 "mx1.example.com";
             mkMx 30 "mx3.example.com" ] 1%nat true eq_refl ltac:(discriminate)).
Defined.

Lemma caa_table_witness :
  ∃ r,
    (resolveType answeringDns "example.com" CAA scenarioEnv).1 = Fulfilled r
    ∧ emitted plainChalk plainTable false r
      = [ "  ● CAA (Certificate Authority)";
          plainTable (tableOptions ["Flags"; "Tag"; "Value"])
            [ ["0"; "issue"; "letsencrypt.org"] ];
          "" ].
Proof.
  exact (caa_table answeringDns plainChalk plainTable "example.com" scenarioEnv
           [ mkCaa 0 (Some "letsencrypt.org") None None ] 1%nat false
           eq_refl ltac:(discriminate)).
Defined.

Lemma srv_table_witness :
  ∃ r,
    (resolveType answeringDns "example.com" SRV scenarioEnv).1 = Fulfilled r
    ∧ emitted plainChalk plainTable false r
      = [ "  ● SRV (Service)";
          plainTable (tableOptions ["Priority"; "Weight"; "Port"; "Target"])
            [ ["10"; "60"; "5060"; "sip.example.com"];
              ["20"; "10"; "5060"; "sip2.example.com"] ];
          "" ]
    ∧ (∀ target, hasChar " " target = false →
         firstWord target = target
         ∧ ∀ more, firstWord (target +:+ " " +:+ more) = target).
Proof.
  exact (srv_table answeringDns plainChalk plainTable "example.com" scenarioEnv
           [ mkSrv 10 60 5060 "sip.example.com";
             mkSrv 20 10 5060 "sip2.example.com" ] 1%nat false
           eq_refl ltac:(discriminate)).
Defined.

Lemma plain_table_witness :
  (resolveType answeringDns "example.com" NS scenarioEnv).1
  = Fulfilled (mkDnsResult NS ["ns1.example.com"; "ns2.example.com"] None)
  ∧ ∃ label,
      lookupLabel TYPE_LABELS "NS" = Some label
      ∧ emitted plainChalk plainTable false
          (mkDnsResult NS ["ns1.example.com"; "ns2.example.com"] None)
        = [ "  ● " +:+ label;
            plainTable (tableOptions [])
              [ ["ns1.example.com"]; ["ns2.example.com"] ];
            "" ].
Proof.
  exact (plain_table answeringDns plainChalk plainTable "example.com" NS
           scenarioEnv ["ns1.example.com"; "ns2.example.com"] false eq_refl).
Defined.

(** ** Requests put one after the other *)

Lemma startAll_app {W E X} (tasks1 tasks2 : list (Async W E X)) env :
  Async.startAll (tasks1 ++ tasks2) env
  = let '(p1, env1) := Async.startAll tasks1 env in
    let '(p2, env2) := Async.startAll tasks2 env1 in
    (p1 ++ p2, env2).
Proof.
  revert env. induction tasks1 as [|task tasks1 IH]; intros env; cbn.
  - by destruct (Async.startAll tasks2 env).
  - destruct (task env) as [p env']. rewrite IH.
    destruct (Async.startAll tasks1 env') as [p1 env1].
    by destruct (Async.startAll tasks2 env1).
Qed.

(** X8.  A request for the types of one list followed by those of another
    gives the results of the first request followed by the results of the
    second request made where the first one left the platform: every
    entry of a result is what its own query gives after the queries before
    it, and is not affected by the queries after it. *)
Theorem resolveDns_app {W} (dns : Resolver W) schedule schedule1 schedule2
    domain types1 types2 env rs1 rs2 :
  (resolveDns dns schedule1 domain types1 env).1 = Some (Fulfilled rs1) →
  (resolveDns dns schedule2 domain types2
     (resolveDns dns schedule1 domain types1 env).2).1
  = Some (Fulfilled rs2) →
  (∀ j, (j < length (types1 ++ types2))%nat → j ∈ schedule) →
  resolveDns dns schedule domain (types1 ++ types2) env
  = (Some (Fulfilled (rs1 ++ rs2)),
     (resolveDns dns schedule2 domain types2
        (resolveDns dns schedule1 domain types1 env).2).2).
Proof.
  destruct (startAll_resolveType dns domain types1 env)
    as (r1 & env1 & Hs1 & Ht1 & _).
  destruct (startAll_resolveType dns domain types2 env1)
    as (r2 & env2 & Hs2 & Ht2 & _).
  unfold resolveDns. rewrite map_app, startAll_app, Hs1. cbn [fst snd].
  rewrite Hs2. cbn [fst snd].
  intros H1 H2 Hsched.
  destruct (allSettled schedule1 (Fulfilled <$> r1)) as [o1|] eqn:Ha1;
    [|discriminate H1].
  apply allSettled_Some in Ha1. subst o1. cbn in H1.
  rewrite imap_settled_fulfilled in H1. injection H1 as <-.
  destruct (allSettled schedule2 (Fulfilled <$> r2)) as [o2|] eqn:Ha2;
    [|discriminate H2].
  apply allSettled_Some in Ha2. subst o2. cbn in H2.
  rewrite imap_settled_fulfilled in H2. injection H2 as <-.
  rewrite <- fmap_app. rewrite allSettled_complete.
  - cbn. by rewrite imap_settled_fulfilled.
  - intros j Hj. apply Hsched.
    rewrite length_fmap in Hj. rewrite <- Ht1, <- Ht2.
    by rewrite length_app, !length_fmap, <- length_app.
Qed.

Lemma resolveDns_app_witness :
  resolveDns scenarioDns [2; 0; 1]%nat "example.com" ([A; MX] ++ [SOA])
    scenarioEnv
  = (Some (Fulfilled
       ([ mkDnsResult A ["93.184.216.34"] None;
          mkDnsResult MX
            [ "0 . (null MX — domain does not accept mail)";
              "10 mx1.example.com"; "10 mx1b.example.com";
              "20 mx2.example.com" ] None ]
        ++ [ mkDnsResult SOA [] (Some "Failed to resolve SOA records") ])),
     (resolveDns scenarioDns [0]%nat "example.com" [SOA]
        (resolveDns scenarioDns [1; 0]%nat "example.com" [A; MX]
           scenarioEnv).2).2).
Proof.
  apply (resolveDns_app scenarioDns [2; 0; 1]%nat [1; 0]%nat [0]%nat
           "example.com" [A; MX] [SOA] scenarioEnv).
  - reflexivity.
  - reflexivity.
  - intros j Hj. cbn in Hj.
    assert (j = 0 ∨ j = 1 ∨ j = 2)%nat as [-> | [-> | ->]] by lia;
      repeat constructor.
Defined.

(** ** Compact and full tables *)

Section CompactFacts.
Context (chalk : list Style → string → string).
Context (tableToString : TableOptions → list (list string) → string).

Local Abbreviation emit := (emitted chalk tableToString).



End CompactFacts.

(** ** Text answers and failures in the table *)

Section MoreBlocks.
Context {W : Type} (dns : Resolver W).
Context (chalk : list Style → string → string).
Context (tableToString : TableOptions → list (list string) → string).

Local Abbreviation emit := (emitted chalk tableToString).

(** X10.  When the platform answers the TXT query with at least one
    answer, the block of the result is the marker line, a table without
    head of one row per answer in the order of the answer, its single
    white cell holding the chunks of the answer put together, and an empty
    line. *)
Theorem txt_table domain env answers w' short :
  resolveTxt dns domain (world env) = (Resolves answers, w') →
  answers ≠ [] →
  ∃ r,
    (resolveType dns domain TXT env).1 = Fulfilled r
    ∧ emit short r
      = [ chalk [Green] "  ● TXT (Text)";
          tableToString (tableOptions [])
            (map (λ chunks, [chalk [White] (concatenated chunks)]) answers);
          "" ].
Proof.
  intros Htxt Hne. eexists. split.
  { unfold resolveType, queryType. async_unfold. by rewrite Htxt. }
  rewrite (emitted_present _ _ _ _ "TXT (Text)"); [|done|done|].
  - unfold recordsTable. cbn [type records]. rewrite map_map.
    do 3 f_equal. apply map_ext. intros chunks.
    by rewrite join_empty_concatenated.
  - cbn [records]. by intros Hnil%map_eq_nil.
Qed.

(** X11.  When the platform rejects a query with an error that is not a
    benign absence, the block of the result is the failure line with the
    label of the type, the line of the error with the message of the
    error, or the fallback text of the type when the message is missing or
    empty, and an empty line; the block is written in compact mode too. *)
Theorem failure_block domain t env err short :
  platformRejection dns domain t (world env) = Some err →
  ¬ benign err →
  ∃ r label,
    (resolveType dns domain t env).1 = Fulfilled r
    ∧ lookupLabel TYPE_LABELS (typeName t) = Some label
    ∧ emit short r
      = [ chalk [Red] ("  ✖ " +:+ label);
          chalk [Red; Dim]
            ("    Error: "
             +:+ match message err with
                 | Some (String c m) => String c m
                 | _ => "Failed to resolve " +:+ typeName t +:+ " records"
                 end);
          "" ].
Proof.
  intros Hrej Hnb. rewrite <- benign_spec in Hnb.
  apply not_true_is_false in Hnb.
  pose proof (resolveType_rejected dns domain t env err Hrej) as Hr.
  rewrite Hnb in Hr.
  destruct (emitted_block chalk tableToString short
              (mkDnsResult t [] (Some (failureText t err))))
    as (desc & label & _ & Hl & He).
  eexists _, label. split; [exact Hr|]. split; [exact Hl|].
  rewrite He. cbn [error records]. unfold failureText.
  destruct (message err) as [[|c m]|]; [|done|]; by destruct t.
Qed.
End MoreBlocks.

Lemma txt_table_witness :
  ∃ r,
    (resolveType answeringDns "example.com" TXT scenarioEnv).1 = Fulfilled r
    ∧ emitted plainChalk plainTable true r
      = [ "  ● TXT (Text)";
          plainTable (tableOptions [])
            [ ["v=spf1 include:_spf.example.com ~all"];
              ["google-site-verification=abc123"] ];
          "" ].
Proof.
  exact (txt_table answeringDns plainChalk plainTable "example.com" scenarioEnv
           [ ["v=spf1 include:_spf.example.com"; " ~all"];
             ["google-site-verification=abc123"] ] 1%nat true
           eq_refl ltac:(discriminate)).
Defined.

Lemma failure_block_witness :
  ∃ r label,
    (resolveType scenarioDns "example.com" NS scenarioEnv).1 = Fulfilled r
    ∧ lookupLabel TYPE_LABELS "NS" = Some label
    ∧ emitted plainChalk plainTable true r
      = [ "  ✖ " +:+ label; "    Error: Connection refused"; "" ].
Proof.
  apply (failure_block scenarioDns plainChalk plainTable "example.com" NS
           scenarioEnv (mkErrno (Some "ECONNREFUSED") (Some "Connection refused"))
           true eq_refl).
  intros [H|H]; discriminate H.
Defined.

(** * The command line *)

(** ** Matching by derivatives is membership in the language *)

Module RegExpFacts.
Import RegExp.

Lemma append_eq_nil (s1 s2 : string) : s1 +:+ s2 = "" → s1 = "" ∧ s2 = "".
Proof. destruct s1; [done|discriminate]. Qed.

Lemma nullable_spec r : nullable r = true ↔ Matches r "".
Proof.
  split.
  - induction r; cbn; try done.
    + intros _. constructor.
    + intros [H1 H2]%andb_true_iff.
      change "" with ("" +:+ ""). constructor; auto.
    + intros [H|H]%orb_true_iff; [apply MAltL|apply MAltR]; auto.
    + intros _. constructor.
  - remember "" as s eqn:Hs. induction 1; cbn; try done.
    + apply append_eq_nil in Hs as [-> ->]. rewrite IHMatches1, IHMatches2; done.
    + rewrite IHMatches; done.
    + rewrite IHMatches, orb_true_r; done.
Qed.

Lemma matches_star_cons r c s :
  Matches (Star r) (String c s) →
  ∃ s1 s2, s = s1 +:+ s2 ∧ Matches r (String c s1) ∧ Matches (Star r) s2.
Proof.
  remember (Star r) as r' eqn:Hr. remember (String c s) as s' eqn:Hs.
  intros H. revert s Hs. induction H; intros t Ht; try done.
  injection Hr as ->. destruct s1 as [|c1 s1]; cbn in Ht.
  - by apply IHMatches2.
  - injection Ht as -> <-. by exists s1, s2.
Qed.

Lemma matches_never s : Matches Never s ↔ False.
Proof. split; inversion 1. Qed.

Lemma matches_empty s : Matches Empty s ↔ s = "".
Proof. split; [by inversion 1|intros ->; constructor]. Qed.

Lemma matches_class ranges s :
  Matches (Class ranges) s ↔ ∃ c, s = String c "" ∧ inRanges ranges c = true.
Proof.
  split.
  - inversion 1; subst. eauto.
  - intros (c & -> & Hc). by constructor.
Qed.

Lemma matches_seq r1 r2 s :
  Matches (Seq r1 r2) s
  ↔ ∃ s1 s2, s = s1 +:+ s2 ∧ Matches r1 s1 ∧ Matches r2 s2.
Proof.
  split.
  - inversion 1; subst. eauto.
  - intros (s1 & s2 & -> & H1 & H2). by constructor.
Qed.

Lemma matches_alt r1 r2 s :
  Matches (Alt r1 r2) s ↔ Matches r1 s ∨ Matches r2 s.
Proof.
  split.
  - inversion 1; subst; auto.
  - intros [H|H]; [by apply MAltL|by apply MAltR].
Qed.

Lemma matches_seq_cons r1 r2 c s :
  Matches (Seq r1 r2) (String c s)
  ↔ (∃ s1 s2, s = s1 +:+ s2 ∧ Matches r1 (String c s1) ∧ Matches r2 s2)
    ∨ (Matches r1 "" ∧ Matches r2 (String c s)).
Proof.
  rewrite matches_seq. split.
  - intros (s1 & s2 & Heq & H1 & H2). destruct s1 as [|c1 s1]; cbn in Heq.
    + right. by subst.
    + injection Heq as -> ->. left. by exists s1, s2.
  - intros [(s1 & s2 & -> & H1 & H2)|[H1 H2]].
    + by exists (String c s1), s2.
    + by exists "", (String c s).
Qed.

Lemma deriv_spec c r : ∀ s, Matches (deriv c r) s ↔ Matches r (String c s).
Proof.
  induction r as [| |ranges|r1 IH1 r2 IH2|r1 IH1 r2 IH2|r IH]; intros s; cbn.
  - by rewrite !matches_never.
  - rewrite matches_never, matches_empty. done.
  - rewrite matches_class. destruct (inRanges ranges c) eqn:Hc.
    + rewrite matches_empty. split.
      * intros ->. by exists c.
      * by intros (c' & [= -> ->] & _).
    + rewrite matches_never. split; [done|].
      intros (c' & [= -> ->] & Hc'). congruence.
  - assert (Matches (Seq (deriv c r1) r2) s
            ↔ ∃ s1 s2, s = s1 +:+ s2 ∧ Matches r1 (String c s1) ∧ Matches r2 s2)
      as Hseq.
    { rewrite matches_seq. by setoid_rewrite IH1. }
    rewrite matches_seq_cons, <- nullable_spec, <- IH2.
    destruct (nullable r1).
    + rewrite matches_alt, Hseq. tauto.
    + rewrite Hseq. intuition congruence.
  - rewrite !matches_alt, IH1, IH2. done.
  - rewrite matches_seq. setoid_rewrite IH. split.
    + intros (s1 & s2 & -> & H1 & H2).
      change (String c (s1 +:+ s2)) with (String c s1 +:+ s2).
      by constructor.
    + by intros (s1 & s2 & -> & H1 & H2)%matches_star_cons; eauto.
Qed.

Lemma test_spec r s : test r s = true ↔ Matches r s.
Proof.
  revert r. induction s as [|c s IH]; intros r; cbn.
  - apply nullable_spec.
  - by rewrite IH, deriv_spec.
Qed.

Lemma matches_star r s :
  Matches (Star r) s
  ↔ ∃ pieces, s = concatenated pieces ∧ Forall (Matches r) pieces.
Proof.
  split.
  - remember (Star r) as r' eqn:Hr. induction 1; try done.
    + by exists [].
    + injection Hr as ->. destruct (IHMatches2 eq_refl) as (pieces & -> & Hall).
      exists (s1 :: pieces). split; [done|]. by constructor.
  - intros (pieces & -> & Hall). induction Hall as [|p pieces Hp _ IH]; cbn.
    + constructor.
    + by constructor.
Qed.

Lemma matches_star_class ranges s :
  Matches (Star (Class ranges)) s ↔ AsciiText.all (inRanges ranges) s = true.
Proof.
  rewrite matches_star. split.
  - intros (pieces & -> & Hall). induction Hall as [|p pieces Hp _ IH]; [done|].
    apply matches_class in Hp as (c & -> & Hc). cbn. by rewrite Hc.
  - induction s as [|c s IH]; cbn.
    + intros _. by exists [].
    + intros [Hc Hs]%andb_true_iff. destruct (IH Hs) as (pieces & -> & Hall).
      exists (String c "" :: pieces). split; [done|].
      constructor; [by apply matches_class; eauto|done].
Qed.

Lemma matches_lit c s : Matches (Lit c) s ↔ s = String c "".
Proof.
  unfold Lit. rewrite matches_class. unfold inRanges. cbn [existsb fst snd].
  split.
  - intros (c' & -> & Hc). rewrite orb_false_r in Hc.
    apply andb_true_iff in Hc as [H1%N.leb_le H2%N.leb_le].
    assert (N_of_ascii c' = N_of_ascii c) as Heq by lia.
    apply (f_equal ascii_of_N) in Heq. rewrite !ascii_N_embedding in Heq.
    by subst.
  - intros ->. exists c. split; [done|]. by rewrite N.leb_refl.
Qed.
End RegExpFacts.

(** ** The language of the domain expression *)

Lemma all_append p a b :
  AsciiText.all p (a +:+ b) = AsciiText.all p a && AsciiText.all p b.
Proof.
  induction a as [|c a IH]; [done|]. cbn. by rewrite IH, andb_assoc.
Qed.

Lemma lastChar_snoc c a c' : lastChar c (a +:+ String c' "") = c'.
Proof. revert c. induction a as [|c0 a IH]; intros c; [done|]. cbn. apply IH. Qed.

Lemma snoc_lastChar c rest :
  rest ≠ "" → ∃ init, rest = init +:+ String (lastChar c rest) "".
Proof.
  revert c. induction rest as [|c0 rest IH]; intros c Hne; [done|].
  destruct rest as [|c1 rest].
  - by exists "".
  - destruct (IH c0 ltac:(done)) as [init Hinit].
    exists (String c0 init). cbn [lastChar String.append] in *. by rewrite <- Hinit.
Qed.

Lemma isAlnum_isLabelChar c : isAlnum c = true → isLabelChar c = true.
Proof.
  unfold isAlnum, isLabelChar, RegExp.inRanges. cbn [existsb fst snd].
  rewrite !orb_true_iff. tauto.
Qed.

Local Abbreviation labelDot :=
  (RegExp.Seq
     (RegExp.Class [("a", "z"); ("A", "Z"); ("0", "9")]%char)
     (RegExp.Seq
        (RegExp.Opt
           (RegExp.Seq
              (RegExp.Star
                 (RegExp.Class
                    [("a", "z"); ("A", "Z"); ("0", "9"); ("-", "-")]%char))
              (RegExp.Class [("a", "z"); ("A", "Z"); ("0", "9")]%char)))
        (RegExp.Lit "."))).

Lemma matches_labelDot s :
  RegExp.Matches labelDot s ↔ ∃ l, s = l +:+ "." ∧ isLabel l = true.
Proof.
  rewrite RegExpFacts.matches_seq. split.
  - intros (s1 & s2 & -> & (c & -> & Hc)%RegExpFacts.matches_class & H2).
    apply RegExpFacts.matches_seq in H2
      as (x & y & -> & Hx & ->%RegExpFacts.matches_lit).
    exists (String c x). split; [done|].
    apply RegExpFacts.matches_alt in Hx as [Hx| ->%RegExpFacts.matches_empty].
    + apply RegExpFacts.matches_seq in Hx
        as (m & e & -> & Hm%RegExpFacts.matches_star_class
            & (c' & -> & Hc')%RegExpFacts.matches_class).
      cbn [isLabel]. rewrite all_append, lastChar_snoc. cbn [AsciiText.all].
      fold (isAlnum c). fold (isAlnum c'). unfold isAlnum in *.
      rewrite Hc, Hc'. cbn [andb].
      change (AsciiText.all isLabelChar m) with
        (AsciiText.all
           (RegExp.inRanges [("a", "z"); ("A", "Z"); ("0", "9"); ("-", "-")]%char)
           m).
      rewrite Hm. cbn [andb]. rewrite !andb_true_r.
      by apply isAlnum_isLabelChar.
    + cbn [isLabel AsciiText.all lastChar]. unfold isAlnum. by rewrite Hc.
  - intros (l & -> & Hl). destruct l as [|c rest]; [done|].
    cbn [isLabel] in Hl.
    apply andb_true_iff in Hl as [[Hc Hall]%andb_true_iff Hlast].
    exists (String c ""), (rest +:+ "."). split; [done|]. split.
    { apply RegExpFacts.matches_class. by exists c. }
    apply RegExpFacts.matches_seq. exists rest, ".".
    split; [done|]. split; [|by apply RegExpFacts.matches_lit].
    apply RegExpFacts.matches_alt. destruct (decide (rest = "")) as [->|Hne].
    { right. constructor. }
    left. destruct (snoc_lastChar c rest Hne) as [init Hinit].
    rewrite Hinit. rewrite Hinit, all_append in Hall.
    apply andb_true_iff in Hall as [Hinit' _].
    apply RegExpFacts.matches_seq. exists init, (String (lastChar c rest) "").
    split; [done|]. split.
    + by apply RegExpFacts.matches_star_class.
    + apply RegExpFacts.matches_class. eauto.
Qed.

Lemma matches_tld t :
  RegExp.Matches
    (RegExp.AtLeast 2 (RegExp.Class [("a", "z"); ("A", "Z")]%char)) t
  ↔ isTld t = true.
Proof.
  cbn [RegExp.AtLeast]. rewrite RegExpFacts.matches_seq. split.
  - intros (s1 & s2 & -> & (c1 & -> & Hc1)%RegExpFacts.matches_class & H2).
    apply RegExpFacts.matches_seq in H2
      as (s3 & rest & -> & (c2 & -> & Hc2)%RegExpFacts.matches_class
          & Hrest%RegExpFacts.matches_star_class).
    unfold isTld. apply andb_true_iff. split; [done|].
    cbn [String.append AsciiText.all]. fold (isLetter c1) in Hc1.
    fold (isLetter c2) in Hc2. rewrite Hc1, Hc2. exact Hrest.
  - unfold isTld. intros [Hlen Hall]%andb_true_iff.
    destruct t as [|c1 [|c2 rest]]; [done|done|].
    cbn in Hall. apply andb_true_iff in Hall as [Hc1 [Hc2 Hrest]%andb_true_iff].
    exists (String c1 ""), (String c2 rest). split; [done|]. split.
    { apply RegExpFacts.matches_class. by exists c1. }
    apply RegExpFacts.matches_seq. exists (String c2 ""), rest.
    split; [done|]. split.
    + apply RegExpFacts.matches_class. by exists c2.
    + by apply RegExpFacts.matches_star_class.
Qed.

Lemma Forall_images {X Y} (f : X → Y) (P : X → Prop) (ys : list Y) :
  Forall (λ y, ∃ x, y = f x ∧ P x) ys → ∃ xs, ys = map f xs ∧ Forall P xs.
Proof.
  induction 1 as [|y ys (x & -> & Hx) _ (xs & -> & Hxs)].
  - by exists [].
  - exists (x :: xs). split; [done|]. by constructor.
Qed.

Lemma domainRegex_language d :
  RegExp.test domainRegex d = true
  ↔ ∃ labels tld,
      labels ≠ [] ∧ d = dotted labels tld
      ∧ Forall (λ l, isLabel l = true) labels ∧ isTld tld = true.
Proof.
  rewrite RegExpFacts.test_spec. unfold domainRegex, RegExp.Plus.
  cbn [app]. rewrite RegExpFacts.matches_seq. split.
  - intros (s1 & tld & -> & H1 & Htld%matches_tld).
    apply RegExpFacts.matches_seq in H1
      as (p & ps & -> & (l & -> & Hl)%matches_labelDot
          & (pieces & -> & Hall)%RegExpFacts.matches_star).
    assert (Forall (λ y, ∃ x, y = x +:+ "." ∧ isLabel x = true) pieces) as Hall'.
    { eapply Forall_impl; [exact Hall|]. intros y Hy. by apply matches_labelDot. }
    apply Forall_images in Hall' as (ls & -> & Hls).
    exists (l :: ls), tld. split; [done|]. split; [done|].
    split; [by constructor|done].
  - intros (labels & tld & Hne & -> & Hall & Htld).
    destruct labels as [|l ls]; [done|]. apply Forall_cons in Hall as [Hl Hls].
    exists (concatenated (map (λ l, l +:+ ".") (l :: ls))), tld.
    split; [done|]. split; [|by apply matches_tld].
    apply RegExpFacts.matches_seq.
    exists (l +:+ "."), (concatenated (map (λ l, l +:+ ".") ls)).
    split; [done|]. split.
    + apply matches_labelDot. eauto.
    + apply RegExpFacts.matches_star. eexists. split; [done|].
      apply Forall_map. eapply Forall_impl; [exact Hls|].
      intros x Hx. apply matches_labelDot. eauto.
Qed.

(** X12.  The domains the action accepts are exactly the texts made of one
    or more labels, each followed by a dot, and a top-level name: a label
    is a non-empty text of letters, digits and hyphens without a hyphen at
    either end, the top-level name is two letters or more.  Nothing else
    is required: there is no bound on the length of a label or of the
    domain. *)
Theorem domainRegex_accepts d :
  RegExp.test domainRegex d = true
  ↔ ∃ labels tld,
      labels ≠ [] ∧ d = dotted labels tld
      ∧ Forall (λ l, isLabel l = true) labels ∧ isTld tld = true.
Proof. apply domainRegex_language. Qed.

Lemma hasChar_append c a b :
  hasChar c (a +:+ b) = hasChar c a || hasChar c b.
Proof.
  induction a as [|c' a IH]; [done|].
  cbn [String.append hasChar]. by rewrite IH, orb_assoc.
Qed.

Lemma all_hasChar p s c :
  AsciiText.all p s = true → hasChar c s = true → p c = true.
Proof.
  induction s as [|c' s IH]; [done|]. cbn [AsciiText.all hasChar].
  intros [Hc Hs]%andb_true_iff [Heq|Hin]%orb_true_iff; [|by apply IH].
  by apply Ascii.eqb_eq in Heq as ->.
Qed.

Lemma all_lastChar p c s :
  p c = true → AsciiText.all p s = true → p (lastChar c s) = true.
Proof.
  revert c. induction s as [|c' s IH]; intros c Hc; [done|].
  cbn [AsciiText.all lastChar]. intros [Hc' Hs]%andb_true_iff. by apply IH.
Qed.

Lemma lastChar_append c a b :
  b ≠ "" → ∀ c', lastChar c (a +:+ b) = lastChar c' b.
Proof.
  intros Hb. revert c. induction a as [|c0 a IH]; intros c c'.
  - destruct b; done.
  - cbn [String.append lastChar]. apply IH.
Qed.

Lemma isLetter_isLabelChar c : isLetter c = true → isLabelChar c = true.
Proof.
  unfold isLetter, isLabelChar, RegExp.inRanges. cbn [existsb fst snd].
  rewrite !orb_true_iff. tauto.
Qed.

Lemma isLabel_chars l c :
  isLabel l = true → hasChar c l = true → isLabelChar c = true.
Proof.
  destruct l as [|c0 rest]; [done|]. cbn [isLabel hasChar].
  intros [[Hc0 Hall]%andb_true_iff _]%andb_true_iff [Heq|Hin]%orb_true_iff.
  - apply Ascii.eqb_eq in Heq as ->. by apply isAlnum_isLabelChar.
  - by eapply all_hasChar.
Qed.

(** X13.  What every accepted domain has: only letters, digits, hyphens
    and dots (so no underscore, no space, no character outside ASCII), at
    least one dot, at least four characters, a letter or digit in front and
    a letter at the end (so no trailing dot, and no address of numbers). *)
Theorem domainRegex_necessary d :
  RegExp.test domainRegex d = true →
  (∀ c, hasChar c d = true → isLabelChar c = true ∨ c = "."%char)
  ∧ hasChar "." d = true
  ∧ (4 ≤ String.length d)%nat
  ∧ ∃ c rest,
      d = String c rest ∧ isAlnum c = true ∧ isLetter (lastChar c rest) = true.
Proof.
  intros (labels & tld & Hne & -> & Hall & Htld)%domainRegex_language.
  destruct labels as [|l ls]; [done|]. apply Forall_cons in Hall as [Hl Hls].
  unfold isTld in Htld. apply andb_true_iff in Htld as [Hlen%Nat.leb_le Hlet].
  unfold dotted. cbn [map concatenated foldr].
  fold (concatenated (map (λ l, l +:+ ".") ls)).
  split_and!.
  - intros c. rewrite !hasChar_append. cbn [hasChar]. rewrite orb_false_r.
    intros [[[Hin|Hdot]%orb_true_iff|Hin]%orb_true_iff|Hin]%orb_true_iff.
    + left. by eapply isLabel_chars.
    + right. by apply Ascii.eqb_eq in Hdot.
    + clear Hl. induction Hls as [|x xs Hx _ IH]; [done|].
      cbn [map concatenated foldr] in Hin. rewrite !hasChar_append in Hin.
      cbn [hasChar] in Hin. rewrite orb_false_r in Hin.
      apply orb_true_iff in Hin as [[Hin|Hdot]%orb_true_iff|Hin].
      * left. by eapply isLabel_chars.
      * right. by apply Ascii.eqb_eq in Hdot.
      * by apply IH.
    + left. apply isLetter_isLabelChar. by eapply all_hasChar.
  - rewrite !hasChar_append. cbn [hasChar]. rewrite Ascii.eqb_refl.
    cbn [orb]. by rewrite orb_true_r.
  - rewrite !length_append. destruct l; [done|]. cbn [String.length]. lia.
  - destruct l as [|c rest]; [done|]. cbn [isLabel] in Hl.
    apply andb_true_iff in Hl as [[Hc _]%andb_true_iff _].
    eexists c, _. split; [done|]. split; [done|].
    destruct tld as [|t1 tld]; [cbn in Hlen; lia|].
    rewrite !append_assoc. change ("." +:+ ?x) with (String "." x).
    rewrite (lastChar_append c rest (String "." _) ltac:(done) c).
    cbn [lastChar].
    rewrite (lastChar_append "." _ (String t1 tld) ltac:(done) t1).
    cbn [AsciiText.all] in Hlet. apply andb_true_iff in Hlet as [Ht1 Htl].
    cbn [lastChar]. by apply all_lastChar.
Qed.

Lemma domainRegex_necessary_witness :
  (∀ c, hasChar c "my-site.example.com" = true →
        isLabelChar c = true ∨ c = "."%char)
  ∧ hasChar "." "my-site.example.com" = true
  ∧ (4 ≤ String.length "my-site.example.com")%nat
  ∧ ∃ c rest,
      "my-site.example.com" = String c rest ∧ isAlnum c = true
      ∧ isLetter (lastChar c rest) = true.
Proof. exact (domainRegex_necessary "my-site.example.com" eq_refl). Defined.

(** ** The type list *)

Lemma upper_append a b :
  AsciiText.upper (a +:+ b) = AsciiText.upper a +:+ AsciiText.upper b.
Proof. induction a as [|c a IH]; [done|]. cbn. by rewrite IH. Qed.

Lemma upper_join l :
  AsciiText.upper (JS.join "," l) = JS.join "," (map AsciiText.upper l).
Proof.
  induction l as [|x [|y l] IH]; [done|done|].
  rewrite join_cons, !upper_append, IH. done.
Qed.

Lemma upperChar_comma c :
  Ascii.eqb "," (AsciiText.upperChar c) = Ascii.eqb "," c.
Proof. by destruct c as [[] [] [] [] [] [] [] []]. Qed.

Lemma hasChar_upper s : hasChar "," (AsciiText.upper s) = hasChar "," s.
Proof.
  induction s as [|c s IH]; [done|].
  cbn [AsciiText.upper hasChar]. by rewrite upperChar_comma, IH.
Qed.

Lemma upperChar_ascii c :
  (N_of_ascii (AsciiText.upperChar c) <? 128)%N = (N_of_ascii c <? 128)%N.
Proof. by destruct c as [[] [] [] [] [] [] [] []]. Qed.

Lemma isAscii_upper s :
  AsciiText.isAscii (AsciiText.upper s) = AsciiText.isAscii s.
Proof.
  unfold AsciiText.isAscii. induction s as [|c s IH]; [done|].
  cbn [AsciiText.upper AsciiText.all]. by rewrite upperChar_ascii, IH.
Qed.

Lemma isAscii_append a b :
  AsciiText.isAscii (a +:+ b) = AsciiText.isAscii a && AsciiText.isAscii b.
Proof. apply all_append. Qed.

Lemma isAscii_join l :
  Forall (λ s, AsciiText.isAscii s = true) l →
  AsciiText.isAscii (JS.join "," l) = true.
Proof.
  induction 1 as [|x l Hx Hl IH]; [done|]. destruct l as [|y l]; [done|].
  rewrite join_cons, !isAscii_append, Hx, IH. done.
Qed.

(** Splitting what was joined gives the parts back, when no part has the
    separating character. *)
Lemma split_join_char c l :
  l ≠ [] → Forall (λ s, hasChar c s = false) l →
  Str.split (String c "") (JS.join (String c "") l) = l.
Proof.
  intros Hne Hall. induction Hall as [|x l Hx Hl IH]; [done|].
  destruct l as [|y l].
  - apply split_none; [done|]. intros Hocc%hasChar_occurs. congruence.
  - rewrite join_cons.
    change (x +:+ String c "" +:+ ?t) with (x +:+ String c t).
    rewrite split_char by done. by rewrite IH.
Qed.

Lemma includesType_typeName t : includesType (typeName t) = true.
Proof. by destruct t. Qed.



Lemma omap_typeOfName types :
  omap typeOfName (map typeName types) = types.
Proof.
  induction types as [|t types IH]; [done|].
  cbn [map omap list_omap]. by rewrite typeOfName_typeName, IH.
Qed.

Lemma filter_invalid_typeNames types :
  List.filter (λ t, negb (includesType t)) (map typeName types) = [].
Proof.
  induction types as [|t types IH]; [done|].
  cbn [map List.filter]. by rewrite includesType_typeName.
Qed.




Lemma prefix_char c c' x y :
  String.prefix (String c "") (String c' x)
  = String.prefix (String c "") (String c' y).
Proof. cbn. destruct (ascii_dec c c'); [|done]. by rewrite !prefix_empty. Qed.

Lemma splitFrom_trailing c s : ∀ piece,
  Str.splitFrom (String c "") 0 piece (s +:+ String c "")
  = Str.splitFrom (String c "") 0 piece s ++ [""].
Proof.
  induction s as [|c' s IH]; intros piece.
  - cbn [String.append Str.splitFrom].
    assert (String.prefix (String c "") (String c "") = true) as ->
      by (apply prefix_spec; by exists "").
    done.
  - cbn [String.append Str.splitFrom].
    rewrite (prefix_char c c' (s +:+ String c "") s).
    destruct (String.prefix _ _); cbn [String.length Nat.sub]; by rewrite IH.
Qed.

Section TypeListFacts.
Context (toUpperCase trim : string → string).

Local Abbreviation parse := (parseTypes toUpperCase trim).

(** The entries of a request that names types only. *)
Lemma parseTypes_requested text types :
  text ≠ "" →
  map trim (Str.split "," (toUpperCase text)) = map typeName types →
  parse (Some text) = inl types.
Proof.
  intros Hne Hreq. unfold parseTypes, JS.truthy.
  destruct (String.eqb_spec text "") as [|_]; [done|]. cbn [negb].
  rewrite Hreq, filter_invalid_typeNames. cbn. by rewrite omap_typeOfName.
Qed.

(** X14.  A request that spells types, one per entry between commas, in
    any mix of upper and lower case and with white space around them, all
    in ASCII characters, is parsed to these types, in the order of the
    request and with the repetitions of the request. *)
Theorem parseTypes_spellings spellings types :
  asciiMethods toUpperCase trim →
  types ≠ [] →
  Forall2 (λ s t, AsciiText.isAscii s = true ∧ hasChar "," s = false
                  ∧ AsciiText.trimmed (AsciiText.upper s) = typeName t)
    spellings types →
  parse (Some (JS.join "," spellings)) = inl types.
Proof.
  intros Hm Hne Hall. apply parseTypes_requested.
  - destruct Hall as [|s t ss ts (_ & _ & Hs) Hall]; [done|].
    destruct s as [|c s]; [by destruct t|]. by destruct ss.
  - assert (AsciiText.isAscii (JS.join "," spellings) = true) as Hascii.
    { apply isAscii_join. clear Hne.
      induction Hall as [|s t ss ts (Hs & _) _ IH]; constructor; done. }
    rewrite (proj1 (Hm _ Hascii)), upper_join.
    change "," with (String "," "") at 1 2. rewrite split_join_char.
    + rewrite map_map. clear Hne Hascii.
      induction Hall as [|s t ss ts (Ha & _ & Hs) _ IH]; [done|].
      cbn [map]. rewrite IH. f_equal.
      rewrite (proj2 (Hm (AsciiText.upper s) ltac:(by rewrite isAscii_upper))).
      exact Hs.
    + destruct Hall; [done|done].
    + apply Forall_map. clear Hne Hascii.
      induction Hall as [|s t ss ts (_ & Hc & _) _ IH]; constructor; [|done].
      cbn. by rewrite hasChar_upper.
Qed.


(** X16.  An empty entry is not a type: a request of ASCII characters that
    ends with a comma, or begins with one, is refused, whatever its other
    entries, and the empty text is among the entries reported as
    unknown. *)
Theorem parseTypes_empty_entry text :
  asciiMethods toUpperCase trim →
  AsciiText.isAscii text = true →
  (∃ invalid, parse (Some (text +:+ ",")) = inr invalid ∧ "" ∈ invalid)
  ∧ (∃ invalid, parse (Some ("," +:+ text)) = inr invalid ∧ "" ∈ invalid).
Proof.
  intros Hm Hascii.
  assert (trim "" = "") as Htrim by (by destruct (Hm "" eq_refl) as [_ ->]).
  split.
  - assert (AsciiText.isAscii (text +:+ ",") = true) as Ha
      by (by rewrite isAscii_append, Hascii).
    unfold parseTypes, JS.truthy.
    destruct (String.eqb_spec (text +:+ ",") "") as [Hnil|_];
      [by destruct text|].
    cbn [negb]. rewrite (proj1 (Hm _ Ha)), upper_append.
    change (AsciiText.upper ",") with (String "," "").
    unfold Str.split. change "," with (String "," "") at 1.
    rewrite splitFrom_trailing, map_app, List.filter_app.
    cbn [map List.filter]. rewrite Htrim.
    change (negb (includesType "")) with true. cbn match.
    destruct (List.filter _ _) as [|x l]; cbn; eexists; split; try done.
    + apply list_elem_of_In. cbn. tauto.
    + apply list_elem_of_In. cbn. right. apply in_or_app. cbn. tauto.
  - assert (AsciiText.isAscii ("," +:+ text) = true) as Ha
      by (by rewrite isAscii_append, Hascii).
    unfold parseTypes. cbn [JS.truthy String.eqb String.append negb].
    change (String "," text) with ("," +:+ text).
    rewrite (proj1 (Hm _ Ha)). cbn [String.append AsciiText.upper].
    change (AsciiText.upperChar ",") with ","%char.
    change (String "," (AsciiText.upper text))
      with ("" +:+ String "," (AsciiText.upper text)).
    change "," with (String "," "") at 1.
    rewrite split_char by done. cbn [map List.filter]. rewrite Htrim.
    change (negb (includesType "")) with true. cbn match.
    cbn. eexists. split; [done|]. apply list_elem_of_In. cbn. tauto.
Qed.
End TypeListFacts.

Lemma parseTypes_spellings_witness :
  parseTypes AsciiText.upper AsciiText.trimmed
    (Some (JS.join "," ["a"; " Mx"; "ns "; "A"]))
  = inl [A; MX; NS; A].
Proof.
  apply (parseTypes_spellings AsciiText.upper AsciiText.trimmed
           ["a"; " Mx"; "ns "; "A"] [A; MX; NS; A]).
  - intros s _. split; reflexivity.
  - discriminate.
  - repeat constructor.
Defined.

Lemma parseTypes_empty_entry_witness :
  (∃ invalid,
     parseTypes AsciiText.upper AsciiText.trimmed (Some ("A,MX" +:+ ","))
     = inr invalid ∧ "" ∈ invalid)
  ∧ (∃ invalid,
       parseTypes AsciiText.upper AsciiText.trimmed (Some ("," +:+ "A,MX"))
       = inr invalid ∧ "" ∈ invalid).
Proof.
  apply (parseTypes_empty_entry AsciiText.upper AsciiText.trimmed "A,MX").
  - intros s _. split; reflexivity.
  - reflexivity.
Defined.

(** ** The action *)

Section ActionFacts.
Context {W : Type} (dns : Resolver W).
Context (chalk : list Style → string → string).
Context (tableToString : TableOptions → list (list string) → string).
Context (toUpperCase trim : string → string).

Local Abbreviation run := (action dns chalk tableToString toUpperCase trim).
Local Abbreviation parse := (parseTypes toUpperCase trim).

(** The action on valid input, by the outcome of the request. *)
Lemma action_valid isTTY schedule domain options env types :
  RegExp.test domainRegex domain = true →
  parse (CliOptions.type options) = inl types →
  ∃ results env',
    type <$> results = types
    ∧ issued env' = issued env ++ map (λ t, (methodOf t, domain)) types
    ∧ (resolveDns dns schedule domain types env).2 = env'
    ∧ ((∀ j, (j < length types)%nat → j ∈ schedule) →
       (resolveDns dns schedule domain types env).1 = Some (Fulfilled results))
    ∧ let json := JS.nullish (CliOptions.json options) false in
      let started :=
        SpinnerStart
          ("Resolving DNS records for " +:+ chalk [Bold] domain +:+ "...")
          "cyan" (negb (negb json && isTTY)) in
      (run isTTY schedule domain options env
       = ([ started; SpinnerStop;
            ConsoleLog
              (if json then formatJson domain results
               else formatTable chalk tableToString domain results
                      (JS.nullish (CliOptions.short options) false)) ],
          Returns, env')
       ∧ (resolveDns dns schedule domain types env).1 = Some (Fulfilled results))
      ∨ (run isTTY schedule domain options env = ([started], Pending, env')
         ∧ (resolveDns dns schedule domain types env).1 = None).
Proof.
  intros Hdom Htypes.
  destruct (resolveDns_run dns domain types env)
    as (rs & env' & Ht & _ & Hi & _ & Hrun).
  destruct (Hrun schedule) as (He & Hok & Hinv).
  exists rs, env'. split_and!; [done..|].
  unfold action. rewrite Hdom, Htypes. cbn [negb].
  destruct (resolveDns dns schedule domain types env) as [[out|] env''] eqn:Hres;
    cbn [fst snd] in *; subst env''.
  - rewrite (Hinv out eq_refl). by left.
  - by right.
Qed.

(** X17.  How the action ends when every query completes.  It either
    returns or exits with code 1, and it exits exactly when the domain is
    not accepted or an entry of the type option is not a type.  When it
    exits, no query was issued and the events are two calls of
    [console.error] and nothing else: the invalid domain and the expected
    form, or the unknown entries and the valid types.  When it returns, one
    query was issued for each requested type, in the order of the request,
    and the events are the start of the spinner, its stop and one call of
    [console.log] with the rendering of the results of the request, as
    JSON or as a table, and nothing else: no call of [console.error]. *)
Theorem action_outcome isTTY schedule domain options env :
  (∀ types, parse (CliOptions.type options) = inl types →
     ∀ j, (j < length types)%nat → j ∈ schedule) →
  ∃ events completion env',
    run isTTY schedule domain options env = (events, completion, env')
    ∧ (completion = Returns ∨ completion = Exits 1)
    ∧ (completion = Exits 1
       ↔ RegExp.test domainRegex domain = false
         ∨ ∃ invalid, parse (CliOptions.type options) = inr invalid)
    ∧ (completion = Exits 1 →
       env' = env
       ∧ ((RegExp.test domainRegex domain = false
           ∧ events
             = [ ConsoleError
                   (chalk [Red]
                      (JSON.newline +:+ "Invalid domain: " +:+ domain));
                 ConsoleError
                   (chalk [Dim]
                      ("Expected a domain like example.com or sub.example.co.uk"
                       +:+ JSON.newline)) ])
          ∨ (∃ invalid,
               parse (CliOptions.type options) = inr invalid
               ∧ events
                 = [ ConsoleError
                       (chalk [Red]
                          (JSON.newline +:+ "Unknown record type(s): "
                           +:+ JS.join ", " invalid));
                     ConsoleError
                       (chalk [Dim]
                          ("Valid types: A, AAAA, CNAME, MX, NS, TXT, SOA, CAA, SRV"
                           +:+ JSON.newline)) ])))
    ∧ (completion = Returns →
       ∃ types results,
         parse (CliOptions.type options) = inl types
         ∧ resolveDns dns schedule domain types env
           = (Some (Fulfilled results), env')
         ∧ issued env' = issued env ++ map (λ t, (methodOf t, domain)) types
         ∧ events
           = [ SpinnerStart
                 ("Resolving DNS records for " +:+ chalk [Bold] domain +:+ "...")
                 "cyan"
                 (negb (negb (JS.nullish (CliOptions.json options) false)
                        && isTTY));
               SpinnerStop;
               ConsoleLog
                 (if JS.nullish (CliOptions.json options) false
                  then formatJson domain results
                  else formatTable chalk tableToString domain results
                         (JS.nullish (CliOptions.short options) false)) ]).
Proof.
  intros Hsched.
  destruct (RegExp.test domainRegex domain) eqn:Hdom.
  - destruct (parse (CliOptions.type options)) as [types|invalid] eqn:Htypes.
    + destruct (action_valid isTTY schedule domain options env types Hdom Htypes)
        as (rs & env' & Ht & Hi & He & Hok & [[Hrun Hres]|[_ Hnone]]).
      * eexists _, _, _. split; [exact Hrun|]. split_and!.
        -- by left.
        -- split; [done|]. intros [?|[? ?]]; done.
        -- done.
        -- intros _. exists types, rs. split; [done|]. split; [|done].
           apply injective_projections; [exact Hres|exact He].
      * rewrite Hok in Hnone; [done|]. by apply Hsched.
    + unfold action. rewrite Hdom, Htypes. cbn [negb].
      eexists _, _, _. split; [done|]. split_and!.
      * by right.
      * split; [|done]. intros _. right. eauto.
      * intros _. split; [done|]. right. by exists invalid.
      * done.
  - unfold action. rewrite Hdom. cbn [negb].
    eexists _, _, _. split; [done|]. split_and!.
    + by right.
    + split; [|done]. intros _. by left.
    + intros _. split; [done|]. by left.
    + done.
Qed.

(** X18.  With the JSON option, an accepted domain and a type option the
    action takes for a valid type list, the events are the start of the
    spinner, silent on a terminal too, its stop, and one call of
    [console.log] whose text, parsed, is the domain and the results of the
    request, one per requested type in the order of the request. *)
Theorem action_json isTTY schedule domain options env types :
  RegExp.test domainRegex domain = true →
  parse (CliOptions.type options) = inl types →
  CliOptions.json options = Some true →
  (∀ j, (j < length types)%nat → j ∈ schedule) →
  ∃ out results env',
    run isTTY schedule domain options env
    = ([ SpinnerStart
           ("Resolving DNS records for " +:+ chalk [Bold] domain +:+ "...")
           "cyan" true;
         SpinnerStop; ConsoleLog out ],
       Returns, env')
    ∧ (JSON.parse out ≫= asDocument) = Some (domain, results)
    ∧ type <$> results = types
    ∧ (resolveDns dns schedule domain types env).1 = Some (Fulfilled results).
Proof.
  intros Hdom Htypes Hjson Hsched.
  destruct (action_valid isTTY schedule domain options env types Hdom Htypes)
    as (rs & env' & Ht & _ & _ & Hok & [[Hrun Hres]|[_ Hnone]]).
  - rewrite Hjson in Hrun. cbn [JS.nullish negb andb] in Hrun.
    eexists _, rs, _. split; [exact Hrun|]. split_and!; [|done|done].
    unfold formatJson. rewrite parse_stringify. cbn [mbind option_bind].
    apply asDocument_documentValue.
  - rewrite Hok in Hnone; done.
Qed.

(** X19.  The action never takes its failure branch: whatever the input,
    the platform, its string methods and the order of completion, no
    failure text is written and no exception escapes; and it waits for
    ever only when some query never completes. *)
Theorem action_never_fails isTTY schedule domain options env :
  ∃ events completion env',
    run isTTY schedule domain options env = (events, completion, env')
    ∧ completion ≠ Throws
    ∧ (∀ text, SpinnerFail text ∉ events)
    ∧ (completion = Pending →
       ∃ types j,
         parse (CliOptions.type options) = inl types
         ∧ (j < length types)%nat ∧ j ∉ schedule).
Proof.
  destruct (RegExp.test domainRegex domain) eqn:Hdom.
  - destruct (parse (CliOptions.type options)) as [types|invalid] eqn:Htypes.
    + destruct (action_valid isTTY schedule domain options env types Hdom Htypes)
        as (rs & env' & _ & _ & _ & Hok & [[Hrun _]|[Hrun Hnone]]).
      * eexists _, _, _. split; [exact Hrun|]. split_and!; [done| |done].
        intros text Hin. by repeat (apply elem_of_cons in Hin as [?|Hin]);
          try apply elem_of_nil in Hin.
      * eexists _, _, _. split; [exact Hrun|]. split_and!; [done| |].
        -- intros text Hin. by repeat (apply elem_of_cons in Hin as [?|Hin]);
             try apply elem_of_nil in Hin.
        -- intros _. exists types.
           destruct (decide (Forall (λ j, j ∈ schedule) (seq 0 (length types))))
             as [Hall|Hex].
           ++ rewrite Hok in Hnone; [done|]. intros j Hj.
              rewrite Forall_forall in Hall. apply Hall, elem_of_seq. lia.
           ++ apply not_Forall_Exists in Hex; [|apply _].
              apply Exists_exists in Hex as (j & Hj%elem_of_seq & Hn).
              exists j. split; [done|]. split; [lia|done].
    + unfold action. rewrite Hdom, Htypes. cbn [negb].
      eexists _, _, _. split; [done|]. split_and!; [done| |done].
      intros text Hin. by repeat (apply elem_of_cons in Hin as [?|Hin]);
        try apply elem_of_nil in Hin.
  - unfold action. rewrite Hdom. cbn [negb].
    eexists _, _, _. split; [done|]. split_and!; [done| |done].
    intros text Hin. by repeat (apply elem_of_cons in Hin as [?|Hin]);
      try apply elem_of_nil in Hin.
Qed.


End ActionFacts.

Lemma action_outcome_witness :
  ∃ events completion env',
    action scenarioDns plainChalk plainTable AsciiText.upper AsciiText.trimmed
      true [1; 0]%nat "example.com"
      (CliOptions.mk (Some "a, mx") None None) scenarioEnv
    = (events, completion, env')
    ∧ completion = Returns
    ∧ ∃ results,
        resolveDns scenarioDns [1; 0]%nat "example.com" [A; MX] scenarioEnv
        = (Some (Fulfilled results), env')
        ∧ issued env'
          = [(Resolve4, "example.com"); (ResolveMx, "example.com")]
        ∧ events
          = [ SpinnerStart "Resolving DNS records for example.com..." "cyan"
                false;
              SpinnerStop;
              ConsoleLog
                (formatTable plainChalk plainTable "example.com" results
                   false) ].
Proof.
  destruct (action_outcome scenarioDns plainChalk plainTable
              AsciiText.upper AsciiText.trimmed true [1; 0]%nat
              "example.com" (CliOptions.mk (Some "a, mx") None None) scenarioEnv)
    as (events & completion & env' & Hrun & Hc & Hexit & _ & Hret).
  { intros types [= <-] j Hj. cbn in Hj.
    assert (j = 0 ∨ j = 1)%nat as [-> | ->] by lia; repeat constructor. }
  assert (completion = Returns) as Hcompletion.
  { destruct Hc as [Hc|Hc]; [exact Hc|].
    apply Hexit in Hc as [Hc|[invalid Hc]]; discriminate Hc. }
  exists events, completion, env'. split; [exact Hrun|].
  split; [exact Hcompletion|].
  destruct (Hret Hcompletion) as (types & results & Ht & Hres & Hi & He).
  injection Ht as <-. exists results. split; [exact Hres|].
  split; [exact Hi|exact He].
Defined.

Lemma action_json_witness :
  ∃ out results env',
    action scenarioDns plainChalk plainTable AsciiText.upper AsciiText.trimmed
      true [1; 0]%nat "example.com"
      (CliOptions.mk (Some "a, mx") (Some true) None) scenarioEnv
    = ([ SpinnerStart "Resolving DNS records for example.com..." "cyan" true;
         SpinnerStop; ConsoleLog out ],
       Returns, env')
    ∧ (JSON.parse out ≫= asDocument) = Some ("example.com", results)
    ∧ type <$> results = [A; MX]
    ∧ (resolveDns scenarioDns [1; 0]%nat "example.com" [A; MX] scenarioEnv).1
      = Some (Fulfilled results).
Proof.
  apply (action_json scenarioDns plainChalk plainTable
           AsciiText.upper AsciiText.trimmed true [1; 0]%nat
           "example.com" (CliOptions.mk (Some "a, mx") (Some true) None)
           scenarioEnv [A; MX]).
  - reflexivity.
  - reflexivity.
  - reflexivity.
  - intros j Hj. cbn in Hj.
    assert (j = 0 ∨ j = 1)%nat as [-> | ->] by lia; repeat constructor.
Defined.

